(** * water-bill-ocr: normalizer, matcher, deviation calculator and export merge

    A shallow embedding of [src/app.js].  The first half models the parts of
    the JavaScript runtime the program calls (strings as sequences of UTF-16
    code units, Numbers as IEEE 754 binary64 values, [parseFloat],
    [Math.round], [Number.prototype.toFixed], [String(...)]); the second half
    is the program itself, function by function, under the names it has in
    the source. *)

From Stdlib Require Import ZArith NArith List Bool String Ascii Decimal Lia.
From Stdlib Require Import SpecFloat.
From stdpp Require Import base decidable option list gmap.

Local Open Scope Z_scope.

(** ** JavaScript strings *)

Module JS.

(** A JavaScript string is a finite sequence of 16-bit code units. *)
Definition char := N.
Definition jsstring := list char.

(** An ASCII literal of the source, as code units. *)
Definition lit (s : string) : jsstring :=
  List.map N_of_ascii (list_ascii_of_string s).

(** [a === b] on strings: the same sequence of code units. *)
Definition str_eqb (a b : jsstring) : bool := bool_decide (a = b).

(** ToBoolean of a string: only the empty string is falsy. *)
Definition str_truthy (s : jsstring) : bool :=
  match s with [] => false | _ :: _ => true end.

(** [a || b] when [a] is a string. *)
Definition str_or (a b : jsstring) : jsstring :=
  if str_truthy a then a else b.

Definition in_range (lo hi c : N) : bool := ((lo <=? c) && (c <=? hi))%N.

Definition is_digit (c : char) : bool := in_range 48 57 c.
Definition is_upper (c : char) : bool := in_range 65 90 c.
Definition is_lower (c : char) : bool := in_range 97 122 c.

(** WhiteSpace and LineTerminator code points of ECMAScript, the ones
    [String.prototype.trim] and [parseFloat] skip: TAB, LF, VT, FF, CR, SP,
    NBSP, U+1680, U+2000..U+200A, U+2028, U+2029, U+202F, U+205F, U+3000 and
    U+FEFF. *)
Definition is_white (c : char) : bool :=
  in_range 9 13 c || (c =? 32)%N || (c =? 160)%N || (c =? 5760)%N
  || in_range 8192 8202 c || (c =? 8232)%N || (c =? 8233)%N
  || (c =? 8239)%N || (c =? 8287)%N || (c =? 12288)%N || (c =? 65279)%N.

Fixpoint trimStart (s : jsstring) : jsstring :=
  match s with
  | c :: s' => if is_white c then trimStart s' else s
  | [] => []
  end.

Definition trimEnd (s : jsstring) : jsstring := rev (trimStart (rev s)).

(** [s.trim()]. *)
Definition trim (s : jsstring) : jsstring := trimEnd (trimStart s).

(** [s.slice(-k)]: the last [k] code units, the whole string when it is
    shorter. *)
Definition slice_last (k : nat) (s : jsstring) : jsstring :=
  drop (length s - k)%nat s.

(** [s.replace(/[^0-9]/g, '')]. *)
Definition keep_digits (s : jsstring) : jsstring := List.filter is_digit s.

(** The decimal digits of a natural number, as code units. *)
Fixpoint uint_chars (u : Decimal.uint) : jsstring :=
  match u with
  | Nil => []
  | D0 u => 48%N :: uint_chars u
  | D1 u => 49%N :: uint_chars u
  | D2 u => 50%N :: uint_chars u
  | D3 u => 51%N :: uint_chars u
  | D4 u => 52%N :: uint_chars u
  | D5 u => 53%N :: uint_chars u
  | D6 u => 54%N :: uint_chars u
  | D7 u => 55%N :: uint_chars u
  | D8 u => 56%N :: uint_chars u
  | D9 u => 57%N :: uint_chars u
  end.

(** Decimal representation of [z >= 0], ["0"] for zero. *)
Definition decimal (z : Z) : jsstring := uint_chars (N.to_uint (Z.to_N z)).

(** The number a sequence of decimal digits denotes. *)
Definition digit_val (c : char) : Z := Z.of_N c - 48.
Definition digits_val (ds : jsstring) : Z :=
  fold_left (fun acc c => 10 * acc + digit_val c) ds 0.

(** ** JavaScript Numbers

    A Number is an IEEE 754 binary64 value; arithmetic is the specification
    of the Standard Library ([SpecFloat], round to nearest, ties to even) at
    precision 53 and maximal exponent 1024. *)

Definition Number := spec_float.
Definition prec : Z := 53.
Definition emax : Z := 1024.

Definition NaN : Number := S754_nan.
Definition sub : Number -> Number -> Number := SFsub prec emax.
Definition mul : Number -> Number -> Number := SFmul prec emax.
Definition div : Number -> Number -> Number := SFdiv prec emax.
Definition neg : Number -> Number := SFopp.

(** The Number for an integer (exact below 2^53). *)
Definition of_Z (z : Z) : Number := binary_normalize prec emax z 0 false.

(** The Number nearest to the rational [n / d]: the division of [SpecFloat]
    on the two integers, which rounds the exact quotient once. *)
Definition of_ratio (n d : positive) : Number :=
  div (S754_finite false n 0) (S754_finite false d 0).

(** The Number nearest to [m * 10^e10], for [m >= 0].  ECMAScript allows a
    literal of more than 20 significant digits to be rounded from its first
    20; the engines round the exact value, and so does this. *)
Definition of_decimal (m e10 : Z) : Number :=
  match m with
  | Zpos p =>
      if 0 <=? e10 then of_ratio (p * Z.to_pos (10 ^ e10)) 1
      else of_ratio p (Z.to_pos (10 ^ (- e10)))
  | _ => S754_zero false
  end.

(** [isFinite(x)] for a Number. *)
Definition isFinite (x : Number) : bool :=
  match x with
  | S754_zero _ | S754_finite _ _ _ => true
  | S754_infinity _ | S754_nan => false
  end.

(** [x === y] and [x > y] on Numbers. *)
Definition strict_eq : Number -> Number -> bool := SFeqb.
Definition gt (x y : Number) : bool := SFltb y x.

Definition Math_abs : Number -> Number := SFabs.

(** [Math.round(x)]: the integral Number closest to [x], the one towards
    +Infinity on a tie; a result of zero keeps the sign of [x]. *)
Definition Math_round (x : Number) : Number :=
  match x with
  | S754_finite s m e =>
      if 0 <=? e then x
      else
        let n := (2 * cond_Zopp s (Zpos m) + 2 ^ (- e)) / 2 ^ (1 - e) in
        if n =? 0 then S754_zero s else of_Z n
  | _ => x
  end.

(** *** parseFloat *)

Fixpoint span_digits (s : jsstring) : jsstring * jsstring :=
  match s with
  | c :: s' =>
      if is_digit c then let (ds, r) := span_digits s' in (c :: ds, r)
      else ([], s)
  | [] => ([], [])
  end.

(** An optional sign: whether it is a minus, and what follows it. *)
Definition split_sign (s : jsstring) : bool * jsstring :=
  match s with
  | 43%N :: s' => (false, s')
  | 45%N :: s' => (true, s')
  | _ => (false, s)
  end.

(** The value of the ExponentPart at the head of [s]; 0 when there is no
    complete one ([e] or [E], an optional sign, at least one digit). *)
Definition exponent_part (s : jsstring) : Z :=
  match s with
  | c :: s' =>
      if (c =? 101)%N || (c =? 69)%N then
        let (minus, s'') := split_sign s' in
        let (ds, _) := span_digits s'' in
        match ds with
        | [] => 0
        | _ => cond_Zopp minus (digits_val ds)
        end
      else 0
  | [] => 0
  end.

Fixpoint starts_with (p s : jsstring) : bool :=
  match p, s with
  | [], _ => true
  | a :: p', b :: s' => (a =? b)%N && starts_with p' s'
  | _ :: _, [] => false
  end.

(** The longest prefix of [s] that is a StrUnsignedDecimalLiteral, as the
    Number it denotes; [None] when no prefix is one. *)
Definition unsigned_literal (s : jsstring) : option Number :=
  if starts_with (lit "Infinity") s then Some (S754_infinity false)
  else
    let (ip, r) := span_digits s in
    match r with
    | 46%N :: r' =>
        let (fp, r'') := span_digits r' in
        match ip, fp with
        | [], [] => None
        | _, _ =>
            Some (of_decimal (digits_val (ip ++ fp))
                             (exponent_part r'' - Z.of_nat (length fp)))
        end
    | _ =>
        match ip with
        | [] => None
        | _ => Some (of_decimal (digits_val ip) (exponent_part r))
        end
    end.

(** [parseFloat(s)] for a string [s]. *)
Definition parseFloat (s : jsstring) : Number :=
  let (minus, u) := split_sign (trimStart s) in
  match unsigned_literal u with
  | Some a => if minus then neg a else a
  | None => NaN
  end.

(** *** Number to string *)

(** A positive rational, numerator over denominator. *)
Definition ratio : Type := Z * Z.

(** The exact value [m * 2^e] of a finite Number. *)
Definition exact (m : positive) (e : Z) : ratio :=
  if 0 <=? e then (Zpos m * 2 ^ e, 1) else (Zpos m, 2 ^ (- e)).

(** [q * 10^j]. *)
Definition scale10 (q : ratio) (j : Z) : ratio :=
  if 0 <=? j then (fst q * 10 ^ j, snd q) else (fst q, snd q * 10 ^ (- j)).

(** [q < 10^n]. *)
Definition lt_pow10 (q : ratio) (n : Z) : bool :=
  let (a, b) := scale10 q (- n) in a <? b.

(** The [n] with [10^(n-1) <= q < 10^n]: the difference of the digit counts
    of numerator and denominator, or one more. *)
Definition decimal_exponent (q : ratio) : Z :=
  let est := Z.of_nat (length (decimal (fst q)))
             - Z.of_nat (length (decimal (snd q))) in
  if lt_pow10 q est then est else est + 1.

(** Whether the Number nearest to [c * 10^j] is [x]. *)
Definition rounds_to (x : Number) (c j : Z) : bool :=
  strict_eq (of_decimal c j) x.

(** The digits [s] and the exponent [n] of Number::toString for the finite
    [x > 0] of exact value [q], [10^(n0-1) <= q < 10^n0]: the least number
    of digits [k], from the given one up, for which a [k]-digit [s] has
    [s * 10^(n-k)] round to [x]; of the two neighbours of [q * 10^(k-n0)]
    the closer one, the even one on a tie (the choice ECMAScript recommends
    and the engines make). *)
Fixpoint shortest (fuel : nat) (x : Number) (q : ratio) (n0 k : Z) : Z * Z :=
  match fuel with
  | O => (0, n0)
  | S fuel' =>
      let (a, b) := scale10 q (k - n0) in
      let lo := a / b in
      let hi := lo + 1 in
      let up := if hi =? 10 ^ k then (10 ^ (k - 1), n0 + 1) else (hi, n0) in
      match rounds_to x lo (n0 - k), rounds_to x hi (n0 - k) with
      | true, true =>
          match 2 * (a mod b) ?= b with
          | Lt => (lo, n0)
          | Gt => up
          | Eq => if Z.even lo then (lo, n0) else up
          end
      | true, false => (lo, n0)
      | false, true => up
      | false, false => shortest fuel' x q n0 (k + 1)
      end
  end.

Definition zeros (n : Z) : jsstring := repeat 48%N (Z.to_nat n).

(** The string of Number::toString from the digits [s] and the exponent
    [n]: positional for [-5 <= n <= 21], exponential otherwise. *)
Definition format_digits (s n : Z) : jsstring :=
  let ds := decimal s in
  let k := Z.of_nat (length ds) in
  if (-5 <=? n) && (n <=? 21) then
    if k <=? n then ds ++ zeros (n - k)
    else if 0 <? n then take (Z.to_nat n) ds ++ lit "." ++ drop (Z.to_nat n) ds
    else lit "0." ++ zeros (- n) ++ ds
  else
    let e := n - 1 in
    let tail := lit "e" ++ lit (if e <? 0 then "-" else "+") ++ decimal (Z.abs e) in
    if k =? 1 then ds ++ tail
    else take 1 ds ++ lit "." ++ drop 1 ds ++ tail.

(** Number::toString(x), radix 10.  Seventeen digits always suffice. *)
Definition Number_toString (x : Number) : jsstring :=
  match x with
  | S754_nan => lit "NaN"
  | S754_zero _ => lit "0"
  | S754_infinity s => lit (if s then "-Infinity" else "Infinity")
  | S754_finite s m e =>
      let q := exact m e in
      let (d, n) := shortest 20 (S754_finite false m e) q (decimal_exponent q) 1 in
      lit (if s then "-" else "") ++ format_digits d n
  end.

(** *** Completions *)

Inductive exn := RangeError | TypeError.

Inductive completion (A : Type) :=
  | Normal (a : A)
  | Throw (e : exn).
Arguments Normal {A} a.
Arguments Throw {A} e.

Definition bind {A B} (c : completion A) (k : A -> completion B) : completion B :=
  match c with
  | Normal a => k a
  | Throw e => Throw e
  end.

(** *** Number.prototype.toFixed *)

(** The digits of [q] to [f] decimals, [q >= 0]: the integer [n] nearest to
    [q * 10^f], the larger on a tie, with a point before its last [f] digits
    and zeros in front when it has no more than [f]. *)
Definition fixed_digits (q : ratio) (f : Z) : jsstring :=
  let (a, b) := scale10 q f in
  let n := (2 * a + b) / (2 * b) in
  let m := decimal n in
  if f =? 0 then m
  else
    let m := zeros (f + 1 - Z.of_nat (length m)) ++ m in
    let k := (length m - Z.to_nat f)%nat in
    take k m ++ lit "." ++ drop k m.

(** [x.toFixed(f)]: a RangeError when [f] is outside 0..100; Number::toString
    for a value that is not finite or is at least 10^21 in magnitude. *)
Definition toFixed (x : Number) (f : Z) : completion jsstring :=
  if (f <? 0) || (100 <? f) then Throw RangeError
  else
    Normal
      match x with
      | S754_finite s m e =>
          let q := exact m e in
          if lt_pow10 q 21 then lit (if s then "-" else "") ++ fixed_digits q f
          else Number_toString x
      | S754_zero _ => fixed_digits (0, 1) f
      | _ => Number_toString x
      end.

(** *** Values *)

(** The values the program handles: strings, the Numbers and booleans a
    spreadsheet cell can hold, and [undefined] for an absent property. *)
Inductive value :=
  | Undefined
  | Str (s : jsstring)
  | Num (x : Number)
  | Bool (b : bool).

(** ToBoolean: [undefined], the empty string, zero, NaN and [false] are
    falsy. *)
Definition truthy (v : value) : bool :=
  match v with
  | Undefined => false
  | Str s => str_truthy s
  | Num (S754_zero _) | Num S754_nan => false
  | Num _ => true
  | Bool b => b
  end.

(** [a || b]. *)
Definition or (a b : value) : value := if truthy a then a else b.

(** [String(v)]. *)
Definition String_ (v : value) : jsstring :=
  match v with
  | Undefined => lit "undefined"
  | Str s => s
  | Num x => Number_toString x
  | Bool b => lit (if b then "true" else "false")
  end.

(** An object read by property name; own properties only (none of the names
    the program reads is inherited from [Object.prototype]). *)
Definition object := gmap jsstring value.

Definition get (o : object) (k : string) : value :=
  default Undefined (o !! lit k).

(** [s.toUpperCase()] on code units below 128, all that the program passes
    to it; the other code units, which JavaScript maps by the Unicode case
    tables, are left as they are. *)
Definition toUpperCase (s : jsstring) : jsstring :=
  List.map (fun c => if is_lower c then (c - 32)%N else c) s.

End JS.

Import JS.
Coercion Str : jsstring >-> value.
Infix "|||" := or (at level 50, left associativity).
Notation "x <- c ;; k" := (bind c (fun x => k))
  (at level 100, c at next level, right associativity).

(** ** The program *)

(** *** State: [prevData] and [ocrResults] *)

Record PrevRecord := {
  Name : jsstring;
  Meter : jsstring;
  CleanMeter : jsstring;
  Consumption : jsstring
}.

Record OcrEntry := {
  id : Z;
  preview : jsstring;
  rawText : jsstring;
  meterOCR : jsstring;
  consumptionOCR : jsstring
}.

(** *** Helpers *)

(** [/[^A-Z0-9\-]/ig] does not match the ASCII letters, the digits and the
    hyphen; without the [u] flag a code unit from 128 up never folds to an
    ASCII letter, so every other code unit matches. *)
Definition meter_char (c : char) : bool :=
  is_upper c || is_lower c || is_digit c || (c =? 45)%N.

Definition cleanMeter (s : value) : jsstring :=
  if negb (truthy s) then lit ""
  else trim (toUpperCase (List.filter meter_char (String_ s))).

(** [s.replace(/,/g, '')]. *)
Definition remove_commas (s : jsstring) : jsstring :=
  List.filter (fun c => negb (c =? 44)%N) s.

(** The CSS class of a difference cell: [diff-gray] when there is no
    deviation to show, [diff-red] above the threshold, [diff-green]
    otherwise. *)
Inductive DiffClass := diff_gray | diff_red | diff_green.

Record DiffResult := { text : jsstring; cls : DiffClass }.

(** The em dash, U+2014. *)
Definition dash : jsstring := [8212%N].

Definition calcDiffAbs (prev curr : jsstring) : completion DiffResult :=
  let pn := parseFloat (remove_commas (String_ prev)) in
  let cn := parseFloat (remove_commas (String_ curr)) in
  if negb (isFinite pn) || strict_eq pn (of_Z 0) || negb (isFinite cn)
  then Normal {| text := dash; cls := diff_gray |}
  else
    let diff := Math_abs (mul (div (sub cn pn) pn) (of_Z 100)) in
    fixed <- toFixed (div (Math_round (mul diff (of_Z 10))) (of_Z 10)) 1 ;;
    let rounded := fixed ++ lit "%" in
    Normal (if gt diff (of_Z 30)
            then {| text := rounded; cls := diff_red |}
            else {| text := rounded; cls := diff_green |}).

(** find prev record by cleaned meter or last6 digits *)
Definition findPrevByOCR (prevData : list PrevRecord) (meterOCR : jsstring)
  : option PrevRecord :=
  let cleaned := cleanMeter meterOCR in
  if negb (str_truthy cleaned) then None
  else
    match find (fun r => str_eqb (CleanMeter r) cleaned) prevData with
    | Some exact => Some exact
    | None =>
        let digits := keep_digits cleaned in
        let last6 := slice_last 6 digits in
        if str_truthy last6 then
          find (fun r => str_eqb (slice_last 6 (keep_digits (CleanMeter r))) last6)
               prevData
        else None
    end.

(** *** Step 1: the rows of the spreadsheet become [prevData] *)

Definition prevRecord_of_row (row : object) : PrevRecord :=
  let name := get row "Name" ||| get row "name" ||| get row "Account Name"
              ||| get row "Customer" ||| lit "" in
  let meter := get row "Meter No." ||| get row "Meter No" ||| get row "MeterNo"
               ||| get row "Meter" ||| get row "Meter" ||| lit "" in
  let cons := get row "Consumption" ||| get row "Consumption Qty" ||| get row "Qty"
              ||| get row "Prev Consumption" ||| get row "Prev" ||| lit "" in
  {| Name := trim (String_ name);
     Meter := trim (String_ meter);
     CleanMeter := cleanMeter meter;
     Consumption := trim (String_ cons) |}.

Definition load (json : list object) : list PrevRecord :=
  List.map prevRecord_of_row json.

(** *** Export *)

(** A row of the exported sheet, columns [Name], [Meter No.],
    [Prev Consumption], [Current Consumption]. *)
Record ExportRow := {
  col_Name : jsstring;
  col_MeterNo : jsstring;
  col_PrevConsumption : jsstring;
  col_CurrentConsumption : jsstring
}.

(** The first [forEach] of the export handler: one row per OCR entry, and
    the cleaned keys of the records they matched. *)
Definition export_ocr_step (prevData : list PrevRecord)
    (st : list ExportRow * gset jsstring) (r : OcrEntry)
  : list ExportRow * gset jsstring :=
  let (exportRows, matchedPrevKeys) := st in
  let prev := findPrevByOCR prevData (meterOCR r) in
  let name := match prev with Some p => Name p | None => lit "Not Found" end in
  let meterPrev := match prev with Some p => Meter p | None => lit "Not Found" end in
  let prevCons := match prev with Some p => Consumption p | None => lit "Not Found" end in
  let currCons := str_or (consumptionOCR r) (lit "") in
  let matchedPrevKeys :=
    match prev with
    | Some p =>
        if str_truthy (CleanMeter p) then {[ CleanMeter p ]} ∪ matchedPrevKeys
        else matchedPrevKeys
    | None => matchedPrevKeys
    end in
  (exportRows ++ [ {| col_Name := name; col_MeterNo := meterPrev;
                      col_PrevConsumption := prevCons;
                      col_CurrentConsumption := currCons |} ],
   matchedPrevKeys).

(** The second [forEach]: the Step 1 rows no OCR row matched. *)
Definition export_prev_step (matchedPrevKeys : gset jsstring)
    (exportRows : list ExportRow) (p : PrevRecord) : list ExportRow :=
  if negb (str_truthy (CleanMeter p)) then exportRows
  else if negb (bool_decide (CleanMeter p ∈ matchedPrevKeys)) then
    exportRows ++ [ {| col_Name := str_or (Name p) (lit "");
                       col_MeterNo := str_or (Meter p) (lit "");
                       col_PrevConsumption := str_or (Consumption p) (lit "");
                       col_CurrentConsumption := lit "" |} ]
  else exportRows.

(** The rows the export handler hands to the sheet writer. *)
Definition exportRows (prevData : list PrevRecord) (ocrResults : list OcrEntry)
  : list ExportRow :=
  let (rows, matchedPrevKeys) :=
    fold_left (export_ocr_step prevData) ocrResults ([], ∅) in
  fold_left (export_prev_step matchedPrevKeys) prevData rows.

(** ** The properties, as the specification words them *)

(** *** Normalizer *)

(** The characters of a canonical identifier: upper-case ASCII letters,
    digits and the hyphen. *)
Definition canonical_char (c : char) : bool :=
  is_upper c || is_digit c || (c =? 45)%N.

(** *** Matcher *)

(** The exact stage: the first record whose canonical identifier is
    [cleaned]. *)
Definition exact_match (prevData : list PrevRecord) (cleaned : jsstring)
  : option PrevRecord :=
  find (fun r => str_eqb (CleanMeter r) cleaned) prevData.

(** [s] ends with [t]. *)
Definition ends_with (t s : jsstring) : bool := starts_with (rev t) (rev s).

(** The digit characters of a record's canonical identifier, concatenated. *)
Definition record_digits (r : PrevRecord) : jsstring :=
  keep_digits (CleanMeter r).

(** The first record in store order whose digits end with [suffix]. *)
Definition first_ending_with (prevData : list PrevRecord) (suffix : jsstring)
  : option PrevRecord :=
  find (fun r => ends_with suffix (record_digits r)) prevData.

(** The first record in store order whose digits are exactly [ds]. *)
Definition first_with_digits (prevData : list PrevRecord) (ds : jsstring)
  : option PrevRecord :=
  find (fun r => str_eqb (record_digits r) ds) prevData.

(** *** Deviation *)

(** A text as the deviation calculator reads it: commas removed, then
    [parseFloat]. *)
Definition parsed (s : jsstring) : Number := parseFloat (remove_commas s).

(** The text parses when that yields a finite Number; NaN and the infinities
    ([Infinity], a literal beyond the binary64 range) count as failures. *)
Definition parses (s : jsstring) : bool := isFinite (parsed s).

Definition is_zero (x : Number) : bool := strict_eq x (of_Z 0).

(** [abs((current - prior) / prior) * 100]. *)
Definition deviation (pn cn : Number) : Number :=
  Math_abs (mul (div (sub cn pn) pn) (of_Z 100)).

(** Rounding to one decimal place, the way the program does it. *)
Definition round1 (d : Number) : Number :=
  div (Math_round (mul d (of_Z 10))) (of_Z 10).

(** The threshold is the constant 30. *)
Definition above_threshold (d : Number) : bool := gt d (of_Z 30).

(** The deviation calculator on two parsed values. *)
Definition deviation_result (pn cn : Number) : completion DiffResult :=
  if negb (isFinite pn) || is_zero pn || negb (isFinite cn)
  then Normal {| text := dash; cls := diff_gray |}
  else
    shown <- toFixed (round1 (deviation pn cn)) 1 ;;
    Normal {| text := shown ++ lit "%";
              cls := if above_threshold (deviation pn cn)
                     then diff_red else diff_green |}.

(** The calculator of specification 4.4 read literally: commas are removed
    from the prior text only. *)
Definition computeDeviation_prior_commas_only (priorText currentText : jsstring)
  : completion DiffResult :=
  deviation_result (parseFloat (remove_commas priorText)) (parseFloat currentText).

(** *** Record store *)

Definition identifier_aliases : list string :=
  ["Meter No."; "Meter No"; "MeterNo"; "Meter"]%string.


(** The value of the first alias whose column holds a truthy value, the
    empty string when none does. *)
Definition first_truthy (row : object) (aliases : list string) : value :=
  match find (fun k => truthy (get row k)) aliases with
  | Some k => get row k
  | None => Str (lit "")
  end.

(** *** Export *)

Definition not_found : jsstring := lit "Not Found".

(** The row of a capture entry. *)
Definition capture_row (prevData : list PrevRecord) (r : OcrEntry) : ExportRow :=
  match findPrevByOCR prevData (meterOCR r) with
  | Some p =>
      {| col_Name := Name p; col_MeterNo := Meter p;
         col_PrevConsumption := Consumption p;
         col_CurrentConsumption := consumptionOCR r |}
  | None =>
      {| col_Name := not_found; col_MeterNo := not_found;
         col_PrevConsumption := not_found;
         col_CurrentConsumption := consumptionOCR r |}
  end.

(** The row of a prior record no capture matched. *)
Definition prior_row (p : PrevRecord) : ExportRow :=
  {| col_Name := Name p; col_MeterNo := Meter p;
     col_PrevConsumption := Consumption p;
     col_CurrentConsumption := lit "" |}.

(** Some capture entry is matched to a record of canonical identifier
    [key]. *)
Definition key_matched (prevData : list PrevRecord) (ocrResults : list OcrEntry)
    (key : jsstring) : bool :=
  existsb (fun r => match findPrevByOCR prevData (meterOCR r) with
                    | Some q => str_eqb (CleanMeter q) key
                    | None => false
                    end) ocrResults.

(** A prior record of the second pass: its canonical identifier is not empty
    and no capture entry matched it. *)
Definition unmatched (prevData : list PrevRecord) (ocrResults : list OcrEntry)
    (p : PrevRecord) : bool :=
  str_truthy (CleanMeter p) && negb (key_matched prevData ocrResults (CleanMeter p)).

(** ** Sample data *)

Definition record (name meter cons : string) : PrevRecord :=
  {| Name := lit name; Meter := lit meter;
     CleanMeter := cleanMeter (lit meter); Consumption := lit cons |}.

Definition capture (n : Z) (meter cons : string) : OcrEntry :=
  {| id := n; preview := lit ""; rawText := lit "";
     meterOCR := lit meter; consumptionOCR := lit cons |}.

(** ** Regular expressions

    The patterns of the program are sequences of character classes, each
    matched once or under a greedy quantifier, around one capture group,
    with word boundaries in two of them.  The matcher below is the
    backtracking matcher of ECMAScript on patterns of that shape. *)

Module RegExp.

Inductive item :=
  | One (p : char -> bool)
  | Many (p : char -> bool) (min : nat) (max : option nat)
  | Open
  | Close
  | WordBoundary.

Definition pattern := list item.

(** The class of one ASCII character. *)
Definition chr (a : ascii) (c : char) : bool := (c =? N_of_ascii a)%N.

(** The same under the [i] flag: a code unit matches when its upper-case
    form is that of the pattern character; a code unit from 128 up never
    folds to an ASCII letter. *)
Definition fold_case (c : char) : char := if is_lower c then (c - 32)%N else c.
Definition chr_i (a : ascii) (c : char) : bool :=
  (fold_case c =? fold_case (N_of_ascii a))%N.

(** [\w]: ASCII letters, digits and the underscore. *)
Definition is_word (c : char) : bool :=
  is_upper c || is_lower c || is_digit c || (c =? 95)%N.

(** [[A-Z0-9]] under the [i] flag. *)
Definition is_alnum (c : char) : bool := is_upper c || is_lower c || is_digit c.

(** How many code units at the head of [s] are in the class. *)
Fixpoint run_length (p : char -> bool) (s : jsstring) : nat :=
  match s with
  | c :: s' => if p c then S (run_length p s') else 0%nat
  | [] => 0%nat
  end.

(** The code unit before the position reached after [consumed]. *)
Definition before (prev : option char) (consumed : jsstring) : option char :=
  match rev consumed with
  | c :: _ => Some c
  | [] => prev
  end.

(** A greedy quantifier tries the largest count first and gives code units
    back one at a time, down to its minimum. *)
Fixpoint try_down {R} (f : nat -> option R) (min j : nat) : option R :=
  if (j <? min)%nat then None
  else
    match f j with
    | Some r => Some r
    | None =>
        match j with
        | O => None
        | S j' => try_down f min j'
        end
    end.

Definition word_before (prev : option char) : bool :=
  match prev with Some c => is_word c | None => false end.
Definition word_at (rest : jsstring) : bool :=
  match rest with c :: _ => is_word c | [] => false end.

(** The match of a pattern at one position: [prev] is the code unit before
    it, [rest] the text from it on; the result is the text of the capture
    group, collected in [acc] (in reverse) while the group is open. *)
Fixpoint match_from (items : pattern) (prev : option char) (rest : jsstring)
    (recording : bool) (acc : jsstring) : option jsstring :=
  match items with
  | [] => Some (rev acc)
  | One p :: items' =>
      match rest with
      | c :: rest' =>
          if p c then
            match_from items' (Some c) rest' recording
                       (if recording then c :: acc else acc)
          else None
      | [] => None
      end
  | Many p min max :: items' =>
      let n := run_length p rest in
      let n := match max with Some m => Nat.min n m | None => n end in
      try_down
        (fun j =>
           match_from items' (before prev (take j rest)) (drop j rest) recording
                      (if recording then rev (take j rest) ++ acc else acc))
        min n
  | Open :: items' => match_from items' prev rest true []
  | Close :: items' => match_from items' prev rest false acc
  | WordBoundary :: items' =>
      if xorb (word_before prev) (word_at rest)
      then match_from items' prev rest recording acc
      else None
  end.

(** The leftmost match: every start position in turn. *)
Fixpoint search (items : pattern) (prev : option char) (text : jsstring)
  : option jsstring :=
  match match_from items prev text false [] with
  | Some m1 => Some m1
  | None =>
      match text with
      | c :: text' => search items (Some c) text'
      | [] => None
      end
  end.

(** [text.match(re)] for a pattern without the [g] flag: [None] for [null],
    otherwise [m[1]]. *)
Definition match_ (text : jsstring) (re : pattern) : option jsstring :=
  search re None text.

End RegExp.

Import RegExp.

(** *** OCR text extraction *)

(** [\s*], [\:?] and so on. *)
Definition spaces : item := Many is_white 0 None.
Definition optional (p : char -> bool) : item := Many p 0 (Some 1%nat).

(** [[\r\n\s]]. *)
Definition is_break_or_white (c : char) : bool :=
  (c =? 13)%N || (c =? 10)%N || is_white c.

(** [/Meter\s*No\.?\s*\:?\s*[\r\n\s]*([A-Z0-9\-\s]{5,40})/i] *)
Definition re_meter_label : pattern :=
  [ One (chr_i "M"); One (chr_i "e"); One (chr_i "t"); One (chr_i "e"); One (chr_i "r");
    spaces; One (chr_i "N"); One (chr_i "o"); optional (chr "."); spaces;
    optional (chr ":"); spaces; Many is_break_or_white 0 None;
    Open;
    Many (fun c => is_alnum c || chr "-" c || is_white c) 5 (Some 40%nat);
    Close ].

(** The pattern of the AJP tokens, under the [i] flag: a group of [AJP]
    followed by [[^\s,]*]. *)
Definition re_ajp : pattern :=
  [ Open; One (chr_i "A"); One (chr_i "J"); One (chr_i "P");
    Many (fun c => negb (is_white c || chr "," c)) 0 None; Close ].

(** [/([A-Z0-9]{2,3}-\d{1,2}-\d{1,2}-\d{3,})/i] *)
Definition re_hyphenated : pattern :=
  [ Open; Many is_alnum 2 (Some 3%nat); One (chr "-");
    Many is_digit 1 (Some 2%nat); One (chr "-");
    Many is_digit 1 (Some 2%nat); One (chr "-");
    Many is_digit 3 None; Close ].

(** [/\b([A-Z0-9\-]{6,})\b/i] *)
Definition re_long_token : pattern :=
  [ WordBoundary; Open; Many (fun c => is_alnum c || chr "-" c) 6 None; Close;
    WordBoundary ].

(** [/Qty\s*\:?\s*[\r\n\s]*([0-9]{1,5})/i] *)
Definition re_qty : pattern :=
  [ One (chr_i "Q"); One (chr_i "t"); One (chr_i "y");
    spaces; optional (chr ":"); spaces; Many is_break_or_white 0 None;
    Open; Many is_digit 1 (Some 5%nat); Close ].

(** [/Quantity\s*\:?\s*[\r\n\s]*([0-9]{1,5})/i] *)
Definition re_quantity : pattern :=
  [ One (chr_i "Q"); One (chr_i "u"); One (chr_i "a"); One (chr_i "n");
    One (chr_i "t"); One (chr_i "i"); One (chr_i "t"); One (chr_i "y");
    spaces; optional (chr ":"); spaces; Many is_break_or_white 0 None;
    Open; Many is_digit 1 (Some 5%nat); Close ].

(** [/\b([0-9]{1,4})\b/] *)
Definition re_small_number : pattern :=
  [ WordBoundary; Open; Many is_digit 1 (Some 4%nat); Close; WordBoundary ].

(** The recognition result: [None] for [null] (the engine failed or gave no
    data), otherwise its [text]. *)
Definition ocr_text (data : option jsstring) : jsstring :=
  match data with
  | Some text => if str_truthy text then text else lit ""
  | None => lit ""
  end.

Definition extractMeterFromTextBlocks (data : option jsstring) : jsstring :=
  let text := ocr_text data in
  let after_label :=
    match match_ text re_ajp with
    | Some m1 => cleanMeter m1
    | None =>
        match match_ text re_hyphenated with
        | Some m1 => cleanMeter m1
        | None =>
            match match_ text re_long_token with
            | Some m1 => cleanMeter m1
            | None => lit ""
            end
        end
    end in
  match match_ text re_meter_label with
  | Some m1 => if str_truthy m1 then cleanMeter m1 else after_label
  | None => after_label
  end.

Definition extractConsumptionFromTextBlocks (data : option jsstring) : jsstring :=
  let text := ocr_text data in
  let after_qty :=
    let after_quantity :=
      match match_ text re_small_number with
      | Some m1 => m1
      | None => lit ""
      end in
    match match_ text re_quantity with
    | Some m1 => if str_truthy m1 then m1 else after_quantity
    | None => after_quantity
    end in
  match match_ text re_qty with
  | Some m1 => if str_truthy m1 then m1 else after_qty
  | None => after_qty
  end.

(** *** The state and its handlers *)

Record State := {
  prevData : list PrevRecord;
  ocrResults : list OcrEntry;
  nextId : Z
}.

(** [let prevData = []; let ocrResults = []; let nextId = 1]. *)
Definition initial : State :=
  {| prevData := []; ocrResults := []; nextId := 1 |}.

(** [nextId++] on a Number that holds an integer: exact below 2^53, where
    adding one rounds back to 2^53 itself. *)
Definition increment (n : Z) : Z := if n <? 2 ^ 53 then n + 1 else n.

(** [processImageFile], once the file is read as [dataURL] and recognition
    has returned [data]: the entry is pushed at the end. *)
Definition processImageFile (st : State) (dataURL : jsstring)
    (data : option jsstring) : State :=
  let raw := ocr_text data in
  let meter := str_or (extractMeterFromTextBlocks data) (lit "Not Found") in
  let qty := str_or (extractConsumptionFromTextBlocks data) (lit "Not Found") in
  let entry := {| id := nextId st; preview := dataURL; rawText := raw;
                  meterOCR := meter; consumptionOCR := qty |} in
  {| prevData := prevData st;
     ocrResults := ocrResults st ++ [entry];
     nextId := increment (nextId st) |}.

(** The click handler of the clear button. *)
Definition clear (st : State) : State :=
  {| prevData := prevData st; ocrResults := []; nextId := 1 |}.

(** The sheet is read: [prevData] is replaced. *)
Definition loadSheet (st : State) (json : list object) : State :=
  {| prevData := load json; ocrResults := ocrResults st; nextId := nextId st |}.

(** The two editable fields of a row. *)
Inductive field := field_meterOCR | field_consumptionOCR.

Definition set_field (f : field) (v : jsstring) (e : OcrEntry) : OcrEntry :=
  match f with
  | field_meterOCR =>
      {| id := id e; preview := preview e; rawText := rawText e;
         meterOCR := v; consumptionOCR := consumptionOCR e |}
  | field_consumptionOCR =>
      {| id := id e; preview := preview e; rawText := rawText e;
         meterOCR := meterOCR e; consumptionOCR := v |}
  end.

(** The [oninput] handler of an editable cell: [row] is
    [parseInt(dataset.row, 10)], [None] when that is NaN; the handler then
    returns at once.  Writing a property of [ocrResults[row]] throws a
    TypeError when there is no such entry. *)
Definition oninput (ocr : list OcrEntry) (row : option nat) (f : field)
    (value : jsstring) : completion (list OcrEntry) :=
  match row with
  | None => Normal ocr
  | Some i =>
      match ocr !! i with
      | Some e => Normal (<[ i := set_field f (trim value) e ]> ocr)
      | None => Throw TypeError
      end
  end.

(** What happens to the state, one event at a time. *)
Inductive event :=
  | SheetLoaded (json : list object)
  | ImageProcessed (dataURL : jsstring) (data : option jsstring)
  | Cleared
  | Edited (row : nat) (f : field) (value : jsstring).

(** An edit that throws leaves the state as it was. *)
Definition step (st : State) (ev : event) : State :=
  match ev with
  | SheetLoaded json => loadSheet st json
  | ImageProcessed dataURL data => processImageFile st dataURL data
  | Cleared => clear st
  | Edited row f value =>
      match oninput (ocrResults st) (Some row) f value with
      | Normal ocr =>
          {| prevData := prevData st; ocrResults := ocr; nextId := nextId st |}
      | Throw _ => st
      end
  end.

Definition run (evs : list event) : State := fold_left step evs initial.

(** *** The table on screen *)

(** A row of the table: the [data-id] of the [tr], the markup of the
    preview cell, the three cells of the matched record, the two inputs with
    their [data-row], and the difference cell. *)
Record TableRow := {
  tr_id : Z;
  td_preview : jsstring;
  td_name : jsstring;
  td_meterPrev : jsstring;
  td_prevCons : jsstring;
  input_meterOCR : jsstring;
  input_consumptionOCR : jsstring;
  input_row : nat;
  td_diff : DiffResult
}.

Definition quote : jsstring := [34%N].

Definition renderRow (prevData : list PrevRecord) (idx : nat) (r : OcrEntry)
  : completion TableRow :=
  let prevMatch := findPrevByOCR prevData (meterOCR r) in
  let name := match prevMatch with Some p => Name p | None => lit "Not Found" end in
  let meterPrev := match prevMatch with Some p => Meter p | None => lit "Not Found" end in
  let prevCons := match prevMatch with Some p => Consumption p | None => lit "Not Found" end in
  diffObj <-
    (match prevMatch with
     | Some _ =>
         if str_truthy (consumptionOCR r)
            && negb (str_eqb prevCons (lit "Not Found"))
         then calcDiffAbs prevCons (consumptionOCR r)
         else Normal {| text := dash; cls := diff_gray |}
     | None => Normal {| text := dash; cls := diff_gray |}
     end) ;;
  Normal {| tr_id := id r;
            td_preview :=
              if str_truthy (preview r)
              then lit "<img class=" ++ quote ++ lit "thumb" ++ quote
                   ++ lit " src=" ++ quote ++ preview r ++ quote ++ lit " />"
              else lit "";
            td_name := name;
            td_meterPrev := meterPrev;
            td_prevCons := prevCons;
            input_meterOCR := meterOCR r;
            input_consumptionOCR := consumptionOCR r;
            input_row := idx;
            td_diff := diffObj |}.

(** [ocrResults.forEach((r, idx) => ...)] from index [idx] on. *)
Fixpoint renderFrom (prevData : list PrevRecord) (idx : nat) (ocr : list OcrEntry)
  : completion (list TableRow) :=
  match ocr with
  | [] => Normal []
  | r :: ocr' =>
      row <- renderRow prevData idx r ;;
      rows <- renderFrom prevData (S idx) ocr' ;;
      Normal (row :: rows)
  end.

Definition renderResults (prevData : list PrevRecord) (ocr : list OcrEntry)
  : completion (list TableRow) :=
  renderFrom prevData 0 ocr.

(** ** Further notions *)

(** A record whose canonical identifier is not empty. *)
Definition nonblank (p : PrevRecord) : bool := str_truthy (CleanMeter p).

(** What loading guarantees of one record. *)
Definition well_loaded (r : PrevRecord) : Prop :=
  CleanMeter r = cleanMeter (Meter r)
  /\ Forall (fun c => canonical_char c = true) (CleanMeter r)
  /\ trim (Name r) = Name r
  /\ trim (Meter r) = Meter r
  /\ trim (Consumption r) = Consumption r.

(** A Number whose sign bit is not set (NaN has none). *)
Definition nonneg (x : Number) : Prop :=
  match x with
  | S754_zero s | S754_infinity s | S754_finite s _ _ => s = false
  | S754_nan => True
  end.

(** A text that does not begin with a minus sign. *)
Definition unsigned_text (s : jsstring) : Prop :=
  match s with
  | c :: _ => c <> 45%N
  | [] => True
  end.

(** Pattern items outside the capture group. *)
Definition no_group (items : pattern) : bool :=
  forallb (fun it => match it with Open | Close => false | _ => true end) items.

(** The integers from [z] on, [fuel] of them, all convert to finite
    Numbers. *)
Fixpoint all_finite (fuel : nat) (z : Z) : bool :=
  match fuel with
  | O => true
  | S fuel' => isFinite (of_decimal z 0) && all_finite fuel' (z + 1)
  end.

(** The id of the entry at index [i] of the ledger. *)
Definition expected_id (i : nat) : Z := Z.min (Z.of_nat i + 1) (2 ^ 53).

(** The ids of the ledger are 1, 2, 3, ... in order, and [nextId] is the id
    the next entry gets. *)
Definition ids_in_order (st : State) : Prop :=
  List.map id (ocrResults st)
  = List.map expected_id (seq 0 (length (ocrResults st)))
  /\ nextId st = expected_id (length (ocrResults st)).

(** An exported row with another current consumption. *)
Definition with_current (v : jsstring) (row : ExportRow) : ExportRow :=
  {| col_Name := col_Name row; col_MeterNo := col_MeterNo row;
     col_PrevConsumption := col_PrevConsumption row;
     col_CurrentConsumption := v |}.

(** The four columns of the export as a table row shows them. *)
Definition shown_row (row : TableRow) : ExportRow :=
  {| col_Name := td_name row; col_MeterNo := td_meterPrev row;
     col_PrevConsumption := td_prevCons row;
     col_CurrentConsumption := input_consumptionOCR row |}.

(** The difference cell without the guard of [renderResults]: the
    calculator on the two consumptions of a matched row, the gray dash for
    an unmatched one. *)
Definition diff_of (prevData : list PrevRecord) (r : OcrEntry)
  : completion DiffResult :=
  match findPrevByOCR prevData (meterOCR r) with
  | Some p => calcDiffAbs (Consumption p) (consumptionOCR r)
  | None => Normal {| text := dash; cls := diff_gray |}
  end.

(** The object the export handler pushes for a row: its four properties. *)
Definition row_object (row : ExportRow) : object :=
  <[ lit "Name" := Str (col_Name row) ]>
    (<[ lit "Meter No." := Str (col_MeterNo row) ]>
       (<[ lit "Prev Consumption" := Str (col_PrevConsumption row) ]>
          (<[ lit "Current Consumption" := Str (col_CurrentConsumption row) ]> ∅))).

(** ** Strings *)

Section Strings.

Local Open Scope N_scope.

Lemma str_truthy_nonempty (s : jsstring) : str_truthy s = true <-> s <> [].
Proof. destruct s; simpl; split; congruence. Qed.

Lemma str_truthy_empty (s : jsstring) : str_truthy s = false <-> s = [].
Proof. destruct s; simpl; split; congruence. Qed.

Lemma str_or_empty (s : jsstring) : str_or s (lit "") = s.
Proof. destruct s; reflexivity. Qed.

Lemma str_eqb_eq (a b : jsstring) : str_eqb a b = true <-> a = b.
Proof. unfold str_eqb. apply bool_decide_eq_true. Qed.

(** A string with no white space at its head is left alone by [trimStart]. *)
Lemma trimStart_id (s : jsstring) :
  Forall (fun c => is_white c = false) s -> trimStart s = s.
Proof.
  intros H. destruct H as [|c s Hc _]; simpl; [reflexivity|].
  now rewrite Hc.
Qed.

Lemma trim_id (s : jsstring) :
  Forall (fun c => is_white c = false) s -> trim s = s.
Proof.
  intros H. unfold trim, trimEnd.
  rewrite (trimStart_id s H).
  rewrite trimStart_id by (apply Forall_rev; exact H).
  apply rev_involutive.
Qed.

Lemma upper_canonical (c : char) :
  meter_char c = true ->
  canonical_char (if is_lower c then c - 32 else c) = true.
Proof.
  unfold meter_char, canonical_char, is_upper, is_lower, is_digit, in_range.
  destruct (97 <=? c) eqn:H1, (c <=? 122) eqn:H2; simpl;
    rewrite ?orb_true_iff, ?andb_true_iff, ?N.leb_le, ?N.eqb_eq in *;
    rewrite ?N.leb_le, ?N.leb_gt in *; try tauto; lia.
Qed.

Lemma canonical_not_white (c : char) :
  canonical_char c = true -> is_white c = false.
Proof.
  unfold canonical_char, is_white, is_upper, is_digit, in_range.
  rewrite !orb_true_iff, !andb_true_iff, !N.leb_le, N.eqb_eq.
  intros H. rewrite !orb_false_iff, !andb_false_iff, !N.leb_gt, !N.eqb_neq.
  lia.
Qed.

Lemma canonical_upper_fixed (c : char) :
  canonical_char c = true -> (if is_lower c then c - 32 else c) = c.
Proof.
  unfold canonical_char, is_upper, is_lower, is_digit, in_range.
  rewrite !orb_true_iff, !andb_true_iff, !N.leb_le, N.eqb_eq. intros H.
  destruct (97 <=? c) eqn:H1; simpl; [|reflexivity].
  destruct (c <=? 122) eqn:H2; [|reflexivity].
  apply N.leb_le in H1. lia.
Qed.

Lemma canonical_meter_char (c : char) :
  canonical_char c = true -> meter_char c = true.
Proof.
  unfold canonical_char, meter_char. rewrite !orb_true_iff. tauto.
Qed.

Lemma toUpperCase_canonical (s : jsstring) :
  Forall (fun c => canonical_char c = true)
         (toUpperCase (List.filter meter_char s)).
Proof.
  unfold toUpperCase. apply List.Forall_forall. intros c Hc.
  apply in_map_iff in Hc as [d [<- Hd]].
  apply filter_In in Hd as [_ Hd]. now apply upper_canonical.
Qed.

(** On a string, the normalizer filters, upper-cases, and its final [trim]
    finds nothing to remove. *)
Lemma cleanMeter_string (s : jsstring) :
  cleanMeter s = toUpperCase (List.filter meter_char s).
Proof.
  unfold cleanMeter. simpl. destruct s as [|c s]; [reflexivity|]. simpl negb. cbv iota.
  apply trim_id. eapply List.Forall_impl; [|apply toUpperCase_canonical].
  intros a. apply canonical_not_white.
Qed.

Lemma cleanMeter_canonical (s : jsstring) :
  Forall (fun c => canonical_char c = true) (cleanMeter s).
Proof. rewrite cleanMeter_string. apply toUpperCase_canonical. Qed.

Lemma filter_id {A} (f : A -> bool) (l : list A) :
  Forall (fun x => f x = true) l -> List.filter f l = l.
Proof.
  induction 1 as [|x l Hx _ IH]; simpl; [reflexivity|]. now rewrite Hx, IH.
Qed.

Lemma toUpperCase_id (s : jsstring) :
  Forall (fun c => canonical_char c = true) s -> toUpperCase s = s.
Proof.
  unfold toUpperCase. induction 1 as [|c s Hc _ IH]; simpl; [reflexivity|].
  now rewrite IH, (canonical_upper_fixed c Hc).
Qed.

Lemma cleanMeter_idempotent (s : jsstring) :
  cleanMeter (cleanMeter s) = cleanMeter s.
Proof.
  pose proof (cleanMeter_canonical s) as H.
  rewrite (cleanMeter_string (cleanMeter s)).
  rewrite filter_id.
  - now apply toUpperCase_id.
  - eapply List.Forall_impl; [|exact H]. intros a. apply canonical_meter_char.
Qed.

(** [slice(-k)] of a string of at most [k] code units is the string. *)
Lemma slice_last_short (k : nat) (s : jsstring) :
  (length s <= k)%nat -> slice_last k s = s.
Proof.
  intros H. unfold slice_last.
  replace (length s - k)%nat with 0%nat by lia. reflexivity.
Qed.

Lemma slice_last_length (k : nat) (s : jsstring) :
  length (slice_last k s) = Nat.min k (length s).
Proof. unfold slice_last. rewrite length_drop. lia. Qed.

Lemma slice_last_suffix (k : nat) (s : jsstring) :
  take (length s - k)%nat s ++ slice_last k s = s.
Proof. unfold slice_last. apply take_drop. Qed.

End Strings.

(** ** Normalizer *)

(** C4 (as the program has it).  The normalizer removes every character that
    is not an ASCII letter, a digit or a hyphen (it puts nothing in its
    place), upper-cases what is left and trims it, which by then changes
    nothing; the result holds only upper-case letters, digits and hyphens.
    On ["ajp-15/24-392020"] the slash is removed and the result is
    ["AJP-1524-392020"]. *)
Theorem cleanMeter_strips_and_uppercases :
  (forall s : jsstring,
      cleanMeter s = trim (toUpperCase (List.filter meter_char s))
      /\ cleanMeter s = toUpperCase (List.filter meter_char s)
      /\ Forall (fun c => canonical_char c = true) (cleanMeter s))
  /\ cleanMeter (lit "ajp-15/24-392020") = lit "AJP-1524-392020".
Proof.
  split; [|reflexivity].
  intros s. split; [|split].
  - unfold cleanMeter. destruct s; reflexivity.
  - apply cleanMeter_string.
  - apply cleanMeter_canonical.
Qed.

(** C4, the example as the specification gives it, fails: the slash of
    ["ajp-15/24-392020"] does not become a hyphen. *)
Lemma cleanMeter_slash_counterexample :
  cleanMeter (lit "ajp-15/24-392020") <> lit "AJP-15-24-392020".
Proof. vm_compute. discriminate. Qed.

(** ** Matcher *)

Lemma find_ext {A} (f g : A -> bool) (l : list A) :
  (forall x, f x = g x) -> find f l = find g l.
Proof.
  intros H. induction l as [|x l IH]; simpl; [reflexivity|].
  now rewrite H, IH.
Qed.

Lemma find_exists {A} (f : A -> bool) (l : list A) (x : A) :
  In x l -> f x = true -> exists y, find f l = Some y /\ In y l /\ f y = true.
Proof.
  intros Hin Hx. destruct (find f l) as [y|] eqn:E.
  - exists y. apply find_some in E. tauto.
  - apply (find_none _ _ E) in Hin. congruence.
Qed.

(** The two stages of the matcher, one after the other. *)
Lemma findPrevByOCR_stages (prevData : list PrevRecord) (meterOCR : jsstring) :
  findPrevByOCR prevData meterOCR =
    let cleaned := cleanMeter meterOCR in
    if str_truthy cleaned then
      match exact_match prevData cleaned with
      | Some r => Some r
      | None =>
          let last6 := slice_last 6 (keep_digits cleaned) in
          if str_truthy last6 then
            find (fun r => str_eqb (slice_last 6 (record_digits r)) last6) prevData
          else None
      end
    else None.
Proof.
  unfold findPrevByOCR, exact_match, record_digits. cbv zeta.
  destruct (str_truthy (cleanMeter meterOCR)); reflexivity.
Qed.

Lemma starts_with_prefix (p s : jsstring) :
  starts_with p s = true <-> p `prefix_of` s.
Proof.
  revert s. induction p as [|a p IH]; intros s; simpl.
  - split; [intros _; apply prefix_nil | reflexivity].
  - destruct s as [|b s].
    + split; [discriminate | intros H; now apply prefix_nil_not in H].
    + rewrite andb_true_iff, N.eqb_eq, IH. split.
      * intros [-> H]. now apply prefix_cons.
      * intros H. split; [now apply prefix_cons_inv_1 in H
                         | now apply prefix_cons_inv_2 in H].
Qed.

Lemma ends_with_suffix (t s : jsstring) :
  ends_with t s = true <-> t `suffix_of` s.
Proof.
  unfold ends_with. rewrite starts_with_prefix. split.
  - intros [k E]. exists (rev k).
    now rewrite <- (rev_involutive s), E, rev_app_distr, rev_involutive.
  - intros [k ->]. exists (rev k). apply rev_app_distr.
Qed.

(** For a suffix of exactly [k] code units, [slice(-k)] equal to it is the
    same as ending with it. *)
Lemma slice_last_eq_suffix (k : nat) (t s : jsstring) :
  length t = k -> slice_last k s = t <-> t `suffix_of` s.
Proof.
  intros Hk. split.
  - intros <-. exists (take (length s - k)%nat s). symmetry. apply slice_last_suffix.
  - intros [u ->]. unfold slice_last. rewrite length_app, Hk.
    replace (length u + k - k)%nat with (length u) by lia.
    apply drop_app_length.
Qed.

(** For a string of fewer than [k] code units, [slice(-k)] equal to it is
    equality. *)
Lemma slice_last_eq_short (k : nat) (t s : jsstring) :
  (length t < k)%nat -> slice_last k s = t <-> s = t.
Proof.
  intros Hk. split.
  - intros H. assert (Hl : (length s <= k)%nat).
    { pose proof (slice_last_length k s) as L. rewrite H in L. lia. }
    now rewrite slice_last_short in H.
  - intros ->. apply slice_last_short. lia.
Qed.

Lemma keep_digits_nonempty (s : jsstring) :
  keep_digits s <> [] -> str_truthy s = true.
Proof. destruct s; [intros H; now elim H | reflexivity]. Qed.

Lemma slice_last_truthy (k : nat) (s : jsstring) :
  (0 < k)%nat -> str_truthy (slice_last k s) = str_truthy s.
Proof.
  intros Hk. pose proof (slice_last_length k s) as L.
  destruct s as [|c s]; [reflexivity|].
  destruct (slice_last k (c :: s)); [simpl in L; lia | reflexivity].
Qed.

(** Without an exact match, the matcher is its fallback search. *)
Lemma findPrevByOCR_no_exact (prevData : list PrevRecord) (meterOCR : jsstring) :
  exact_match prevData (cleanMeter meterOCR) = None ->
  keep_digits (cleanMeter meterOCR) <> [] ->
  findPrevByOCR prevData meterOCR =
    find (fun r => str_eqb (slice_last 6 (record_digits r))
                           (slice_last 6 (keep_digits (cleanMeter meterOCR))))
         prevData.
Proof.
  intros Hex Hd. rewrite findPrevByOCR_stages. cbv zeta.
  rewrite (keep_digits_nonempty _ Hd), Hex.
  rewrite slice_last_truthy by lia.
  now apply str_truthy_nonempty in Hd as ->.
Qed.

Lemma findPrevByOCR_no_digits (prevData : list PrevRecord) (meterOCR : jsstring) :
  exact_match prevData (cleanMeter meterOCR) = None ->
  keep_digits (cleanMeter meterOCR) = [] ->
  findPrevByOCR prevData meterOCR = None.
Proof.
  intros Hex Hd. rewrite findPrevByOCR_stages. cbv zeta.
  rewrite Hex, Hd. now destruct (str_truthy _).
Qed.

(** With at most five digits to look for, the fallback test is equality of
    the digit strings. *)
Lemma short_digits_test (ds : jsstring) (r : PrevRecord) :
  (length ds < 6)%nat ->
  str_eqb (slice_last 6 (record_digits r)) (slice_last 6 ds)
  = str_eqb (record_digits r) ds.
Proof.
  intros Hl. rewrite (slice_last_short 6 ds) by lia.
  apply eq_true_iff_eq. rewrite !str_eqb_eq. now apply slice_last_eq_short.
Qed.

(** With six digits or more, it is ending with the last six. *)
Lemma long_digits_test (ds : jsstring) (r : PrevRecord) :
  (6 <= length ds)%nat ->
  str_eqb (slice_last 6 (record_digits r)) (slice_last 6 ds)
  = ends_with (slice_last 6 ds) (record_digits r).
Proof.
  intros Hl. apply eq_true_iff_eq. rewrite str_eqb_eq, ends_with_suffix.
  apply slice_last_eq_suffix. rewrite slice_last_length. lia.
Qed.

(** C8.  The matcher normalizes its input and returns no record when the
    normalized form is empty.  Otherwise, when a stored record has the
    normalized input as its canonical identifier, the matcher returns the
    result of the exact stage: the first such record in store order, which
    is that record when no other has the same canonical identifier.  With a
    record of canonical identifier ["AJP1524392020"] in the store,
    ["ajp 1524 392020"] is matched to a record of that identifier. *)
Theorem findPrevByOCR_exact_stage (prevData : list PrevRecord) (meterOCR : jsstring) :
  (cleanMeter meterOCR = [] -> findPrevByOCR prevData meterOCR = None)
  /\ (forall r,
        cleanMeter meterOCR <> [] -> In r prevData ->
        CleanMeter r = cleanMeter meterOCR ->
        (exists r', findPrevByOCR prevData meterOCR = Some r'
                    /\ exact_match prevData (cleanMeter meterOCR) = Some r'
                    /\ In r' prevData
                    /\ CleanMeter r' = cleanMeter meterOCR)
        /\ ((forall q, In q prevData -> CleanMeter q = CleanMeter r -> q = r) ->
            findPrevByOCR prevData meterOCR = Some r))
  /\ (forall r,
        In r prevData -> CleanMeter r = lit "AJP1524392020" ->
        exists r', findPrevByOCR prevData (lit "ajp 1524 392020") = Some r'
                   /\ In r' prevData
                   /\ CleanMeter r' = lit "AJP1524392020").
Proof.
  assert (Hgen : forall m r,
             cleanMeter (Str m) <> [] -> In r prevData ->
             CleanMeter r = cleanMeter (Str m) ->
             exists r', findPrevByOCR prevData m = Some r'
                        /\ exact_match prevData (cleanMeter (Str m)) = Some r'
                        /\ In r' prevData
                        /\ CleanMeter r' = cleanMeter (Str m)).
  { intros m r Hne Hin Hr.
    destruct (find_exists (fun q => str_eqb (CleanMeter q) (cleanMeter (Str m)))
                prevData r Hin) as [r' [Hf [Hin' Hr']]].
    { now apply str_eqb_eq. }
    exists r'. rewrite findPrevByOCR_stages. cbv zeta.
    apply str_truthy_nonempty in Hne. rewrite Hne.
    unfold exact_match. rewrite Hf. apply str_eqb_eq in Hr'. auto. }
  split; [|split].
  - intros He. rewrite findPrevByOCR_stages. cbv zeta. now rewrite He.
  - intros r Hne Hin Hr. split; [now apply (Hgen meterOCR r)|].
    intros Huniq.
    destruct (Hgen meterOCR r Hne Hin Hr) as [r' [Hf [_ [Hin' Hr']]]].
    rewrite Hf. f_equal. apply Huniq; congruence.
  - intros r Hin Hr.
    destruct (Hgen (lit "ajp 1524 392020") r) as [r' [Hf [_ [Hin' Hr']]]];
      [vm_compute; discriminate | exact Hin | exact Hr |].
    exists r'. auto.
Qed.

(** A store of one record, and the input of the specification's example. *)
Lemma findPrevByOCR_exact_stage_witness :
  findPrevByOCR [record "Ana" "AJP1524392020" "10"] (lit "ajp 1524 392020")
  = Some (record "Ana" "AJP1524392020" "10").
Proof.
  apply (proj1 (proj2 (findPrevByOCR_exact_stage
                         [record "Ana" "AJP1524392020" "10"]
                         (lit "ajp 1524 392020")))
           (record "Ana" "AJP1524392020" "10")).
  - vm_compute. discriminate.
  - left. reflexivity.
  - reflexivity.
  - intros q [<-|[]] _. reflexivity.
Defined.

(** C2 (as the program has it).  When the normalized input has no exact
    match, the fallback concatenates its digit characters and takes the last
    six.  With six digits or more the matcher returns the first record in
    store order whose own digits end with that suffix.  With one to five
    digits the suffix is the whole digit string of the input and the record's
    last six digits must equal it, so the matcher returns the first record
    whose digit string is exactly the input's.  With no digit it returns no
    record. *)
Theorem findPrevByOCR_fallback_stage (prevData : list PrevRecord) (meterOCR : jsstring) :
  exact_match prevData (cleanMeter meterOCR) = None ->
  (6 <= length (keep_digits (cleanMeter meterOCR)) ->
     findPrevByOCR prevData meterOCR =
       first_ending_with prevData (slice_last 6 (keep_digits (cleanMeter meterOCR))))%nat
  /\ (1 <= length (keep_digits (cleanMeter meterOCR)) < 6 ->
      findPrevByOCR prevData meterOCR =
        first_with_digits prevData (keep_digits (cleanMeter meterOCR)))%nat
  /\ (keep_digits (cleanMeter meterOCR) = [] ->
      findPrevByOCR prevData meterOCR = None).
Proof.
  intros Hex. split; [|split].
  - intros Hl. rewrite findPrevByOCR_no_exact; [|exact Hex|].
    + apply find_ext. intros r. now apply long_digits_test.
    + intros E. rewrite E in Hl. simpl in Hl. lia.
  - intros Hl. rewrite findPrevByOCR_no_exact; [|exact Hex|].
    + apply find_ext. intros r. apply short_digits_test. lia.
    + intros E. rewrite E in Hl. simpl in Hl. lia.
  - now apply findPrevByOCR_no_digits.
Qed.

(** The fallback example of the specification: ["zz392020"] against a record
    of canonical identifier ["XY-000392020"]. *)
Lemma findPrevByOCR_fallback_stage_witness :
  findPrevByOCR [record "Ben" "XY-000392020" "20"] (lit "zz392020")
  = Some (record "Ben" "XY-000392020" "20").
Proof.
  rewrite (proj1 (findPrevByOCR_fallback_stage
                    [record "Ben" "XY-000392020" "20"] (lit "zz392020")
                    eq_refl)).
  - reflexivity.
  - vm_compute. lia.
Defined.

(** C2 as stated fails for an input of fewer than six digits: the digits of
    the record ["999123"] end with ["123"], the input ["123"] has no exact
    match, and the matcher returns no record. *)
Lemma fallback_suffix_counterexample :
  keep_digits (cleanMeter (lit "123")) <> []
  /\ exact_match [record "Cy" "999123" "30"] (cleanMeter (lit "123")) = None
  /\ first_ending_with [record "Cy" "999123" "30"]
       (slice_last 6 (keep_digits (cleanMeter (lit "123"))))
     = Some (record "Cy" "999123" "30")
  /\ findPrevByOCR [record "Cy" "999123" "30"] (lit "123") = None.
Proof. vm_compute. repeat split; discriminate. Qed.

(** C9.  When the normalized input has one to five digits, the fallback test
    of a record (its last six digits against the input's) holds exactly when
    the record's digit string equals the input's; the fallback then returns
    the first record with that digit string, whatever the matcher returns
    has that digit string, and a record with more digits than the input is
    never returned. *)
Theorem findPrevByOCR_short_digits (prevData : list PrevRecord) (meterOCR : jsstring) :
  (1 <= length (keep_digits (cleanMeter meterOCR)) <= 5)%nat ->
  (forall r,
      str_eqb (slice_last 6 (record_digits r))
              (slice_last 6 (keep_digits (cleanMeter meterOCR))) = true
      <-> record_digits r = keep_digits (cleanMeter meterOCR))
  /\ (exact_match prevData (cleanMeter meterOCR) = None ->
      findPrevByOCR prevData meterOCR =
        first_with_digits prevData (keep_digits (cleanMeter meterOCR)))
  /\ (forall r, findPrevByOCR prevData meterOCR = Some r ->
                record_digits r = keep_digits (cleanMeter meterOCR))
  /\ (forall r, (length (keep_digits (cleanMeter meterOCR)) < length (record_digits r))%nat ->
                findPrevByOCR prevData meterOCR <> Some r).
Proof.
  intros Hl.
  assert (Hne : keep_digits (cleanMeter meterOCR) <> []).
  { intros E. rewrite E in Hl. simpl in Hl. lia. }
  assert (Hret : forall r, findPrevByOCR prevData meterOCR = Some r ->
                           record_digits r = keep_digits (cleanMeter meterOCR)).
  { intros r Hr.
    destruct (exact_match prevData (cleanMeter meterOCR)) as [q|] eqn:Hex.
    - rewrite findPrevByOCR_stages in Hr. cbv zeta in Hr.
      rewrite (keep_digits_nonempty _ Hne), Hex in Hr.
      injection Hr as ->. apply find_some in Hex as [_ Hq].
      apply str_eqb_eq in Hq. unfold record_digits. now rewrite Hq.
    - rewrite (findPrevByOCR_no_exact _ _ Hex Hne) in Hr.
      apply find_some in Hr as [_ Hr].
      rewrite short_digits_test in Hr by lia. now apply str_eqb_eq in Hr. }
  split; [|split; [|split]].
  - intros r. rewrite short_digits_test by lia. apply str_eqb_eq.
  - intros Hex. rewrite (findPrevByOCR_no_exact _ _ Hex Hne).
    apply find_ext. intros r. apply short_digits_test. lia.
  - exact Hret.
  - intros r Hlen Hr. apply Hret in Hr. rewrite Hr in Hlen. lia.
Qed.

(** Input digits ["123"], record digits ["999123"]: not matched. *)
Lemma findPrevByOCR_short_digits_witness :
  findPrevByOCR [record "Cy" "999123" "30"] (lit "x-123")
  <> Some (record "Cy" "999123" "30").
Proof.
  apply (proj2 (proj2 (proj2 (findPrevByOCR_short_digits
                                [record "Cy" "999123" "30"] (lit "x-123")
                                ltac:(vm_compute; lia))))).
  vm_compute. lia.
Defined.

(** ** Export *)

Lemma capture_row_step (prevData : list PrevRecord)
    (rows : list ExportRow) (keys : gset jsstring) (r : OcrEntry) :
  fst (export_ocr_step prevData (rows, keys) r) = rows ++ [capture_row prevData r].
Proof.
  unfold export_ocr_step, capture_row. simpl. rewrite str_or_empty.
  now destruct (findPrevByOCR prevData (meterOCR r)).
Qed.

(** What one OCR row adds to the set of matched keys. *)
Lemma matched_keys_step (prevData : list PrevRecord)
    (rows : list ExportRow) (keys : gset jsstring) (r : OcrEntry) (k : jsstring) :
  k <> [] ->
  k ∈ snd (export_ocr_step prevData (rows, keys) r)
  <-> k ∈ keys \/ key_matched prevData [r] k = true.
Proof.
  intros Hk. unfold export_ocr_step, key_matched. simpl.
  destruct (findPrevByOCR prevData (meterOCR r)) as [p|]; simpl.
  - rewrite orb_false_r, str_eqb_eq.
    destruct (str_truthy (CleanMeter p)) eqn:Hp.
    + rewrite elem_of_union, elem_of_singleton. intuition congruence.
    + apply str_truthy_empty in Hp. intuition congruence.
  - intuition congruence.
Qed.

Lemma key_matched_cons (prevData : list PrevRecord)
    (r : OcrEntry) (ocr : list OcrEntry) (k : jsstring) :
  key_matched prevData (r :: ocr) k
  = key_matched prevData [r] k || key_matched prevData ocr k.
Proof. unfold key_matched. simpl. now rewrite orb_false_r. Qed.

(** The first pass: the rows are the capture rows in capture order, the
    keys are those of the matched records. *)
Lemma export_first_pass (prevData : list PrevRecord) (ocr : list OcrEntry) :
  forall (rows : list ExportRow) (keys : gset jsstring),
    fst (fold_left (export_ocr_step prevData) ocr (rows, keys))
    = rows ++ List.map (capture_row prevData) ocr
    /\ (forall k, k <> [] ->
          k ∈ snd (fold_left (export_ocr_step prevData) ocr (rows, keys))
          <-> k ∈ keys \/ key_matched prevData ocr k = true).
Proof.
  induction ocr as [|r ocr IH]; intros rows keys; cbn [fold_left List.map].
  - split; [now rewrite app_nil_r | intros k _; simpl; intuition congruence].
  - destruct (export_ocr_step prevData (rows, keys) r) as [rows' keys'] eqn:E.
    destruct (IH rows' keys') as [IHrows IHkeys].
    pose proof (capture_row_step prevData rows keys r) as Hrow.
    rewrite E in Hrow. simpl in Hrow. subst rows'.
    split.
    + rewrite IHrows, <- app_assoc. reflexivity.
    + intros k Hk. rewrite (IHkeys k Hk).
      pose proof (matched_keys_step prevData rows keys r k Hk) as Hstep.
      rewrite E in Hstep. cbn [snd] in Hstep. rewrite Hstep.
      rewrite (key_matched_cons prevData r ocr k), orb_true_iff. tauto.
Qed.

(** The second pass appends the rows of the records it keeps, in store
    order. *)
Lemma export_second_pass (keys : gset jsstring) (prevData : list PrevRecord) :
  forall rows : list ExportRow,
    fold_left (export_prev_step keys) prevData rows
    = rows ++ List.map prior_row
                (List.filter (fun p => str_truthy (CleanMeter p)
                                       && negb (bool_decide (CleanMeter p ∈ keys)))
                             prevData).
Proof.
  induction prevData as [|p prevData IH]; intros rows; simpl.
  - now rewrite app_nil_r.
  - rewrite IH. unfold export_prev_step.
    destruct (str_truthy (CleanMeter p)); simpl; [|reflexivity].
    destruct (bool_decide (CleanMeter p ∈ keys)); simpl; [reflexivity|].
    rewrite !str_or_empty, <- app_assoc. reflexivity.
Qed.

(** C1.  The export is the capture rows in capture order (the matched
    record's name, identifier and prior consumption, or ["Not Found"] three
    times, with the entry's consumption field as current consumption),
    followed by one row with a blank current consumption for every prior
    record, in store order, whose canonical identifier is not empty and is
    not the canonical identifier of a record matched by a capture entry;
    there is no other row. *)
Theorem exportRows_capture_then_unmatched
    (prevData : list PrevRecord) (ocrResults : list OcrEntry) :
  exportRows prevData ocrResults
  = List.map (capture_row prevData) ocrResults
    ++ List.map prior_row (List.filter (unmatched prevData ocrResults) prevData).
Proof.
  unfold exportRows.
  destruct (fold_left (export_ocr_step prevData) ocrResults ([], ∅))
    as [rows keys] eqn:E.
  destruct (export_first_pass prevData ocrResults [] ∅) as [Hrows Hkeys].
  rewrite E in Hrows, Hkeys. simpl in Hrows, Hkeys. subst rows.
  rewrite export_second_pass. f_equal. f_equal.
  apply filter_ext. intros p. unfold unmatched.
  destruct (str_truthy (CleanMeter p)) eqn:Hp; simpl; [|reflexivity].
  f_equal. apply eq_true_iff_eq. rewrite bool_decide_eq_true.
  rewrite Hkeys by now apply str_truthy_nonempty.
  rewrite elem_of_empty. tauto.
Qed.

(** The export-ordering example of the specification: two capture entries
    (one matched, one not) and three prior records give four rows. *)
Example exportRows_sample :
  exportRows
    [record "Ana" "AJP1524392020" "10"; record "Ben" "XY-000777001" "20";
     record "Cy" "999123" "30"]
    [capture 1 "ajp 1524 392020" "12"; capture 2 "Not Found" "7"]
  = [ {| col_Name := lit "Ana"; col_MeterNo := lit "AJP1524392020";
         col_PrevConsumption := lit "10"; col_CurrentConsumption := lit "12" |};
      {| col_Name := not_found; col_MeterNo := not_found;
         col_PrevConsumption := not_found; col_CurrentConsumption := lit "7" |};
      {| col_Name := lit "Ben"; col_MeterNo := lit "XY-000777001";
         col_PrevConsumption := lit "20"; col_CurrentConsumption := lit "" |};
      {| col_Name := lit "Cy"; col_MeterNo := lit "999123";
         col_PrevConsumption := lit "30"; col_CurrentConsumption := lit "" |} ].
Proof. vm_compute. reflexivity. Qed.

(** ** Record store *)

Lemma or_truthy (a b : value) : truthy a = true -> a ||| b = a.
Proof. unfold or. now intros ->. Qed.

Lemma or_falsy (a b : value) : truthy a = false -> a ||| b = b.
Proof. unfold or. now intros ->. Qed.


Lemma identifier_chain (row : object) :
  get row "Meter No." ||| get row "Meter No" ||| get row "MeterNo"
    ||| get row "Meter" ||| get row "Meter" ||| lit ""
  = first_truthy row identifier_aliases.
Proof.
  unfold first_truthy, identifier_aliases. cbn [find].
  destruct (truthy (get row "Meter No.")) eqn:H1;
    [now rewrite !(or_truthy _ _ H1) | rewrite (or_falsy _ _ H1)].
  destruct (truthy (get row "Meter No")) eqn:H2;
    [now rewrite !(or_truthy _ _ H2) | rewrite (or_falsy _ _ H2)].
  destruct (truthy (get row "MeterNo")) eqn:H3;
    [now rewrite !(or_truthy _ _ H3) | rewrite (or_falsy _ _ H3)].
  destruct (truthy (get row "Meter")) eqn:H4;
    [now rewrite !(or_truthy _ _ H4) | now rewrite !(or_falsy _ _ H4)].
Qed.




(** ** Deviation calculator *)

Lemma remove_commas_idempotent (s : jsstring) :
  remove_commas (remove_commas s) = remove_commas s.
Proof.
  unfold remove_commas. apply filter_id. apply List.Forall_forall.
  intros c Hc. now apply filter_In in Hc.
Qed.

(** The calculator removes the commas of both texts, parses them, and works
    on the two Numbers. *)
Lemma calcDiffAbs_parsed (prev curr : jsstring) :
  calcDiffAbs prev curr = deviation_result (parsed prev) (parsed curr).
Proof.
  unfold calcDiffAbs, deviation_result, parsed, deviation, round1,
    above_threshold, is_zero. cbn [String_].
  destruct (_ || _ || _); [reflexivity|].
  destruct (toFixed _ 1); cbn [bind]; [|reflexivity].
  now destruct (gt _ _).
Qed.

(** [toFixed(1)] does not throw. *)
Lemma toFixed_1_normal (x : Number) : exists shown, toFixed x 1 = Normal shown.
Proof. unfold toFixed. cbn [Z.ltb Z.compare orb]. eauto. Qed.

(** The three outcomes of the calculator. *)
Lemma deviation_result_cases (pn cn : Number) :
  (isFinite pn = false \/ is_zero pn = true \/ isFinite cn = false)
  /\ deviation_result pn cn = Normal {| text := dash; cls := diff_gray |}
  \/
  (isFinite pn = true /\ is_zero pn = false /\ isFinite cn = true)
  /\ exists shown,
       toFixed (round1 (deviation pn cn)) 1 = Normal shown
       /\ deviation_result pn cn
          = Normal {| text := shown ++ lit "%";
                      cls := if above_threshold (deviation pn cn)
                             then diff_red else diff_green |}.
Proof.
  unfold deviation_result.
  destruct (isFinite pn) eqn:Hp, (is_zero pn) eqn:Hz, (isFinite cn) eqn:Hc;
    cbn [negb orb]; try (left; split; [tauto | reflexivity]).
  right. split; [tauto|].
  destruct (toFixed_1_normal (round1 (deviation pn cn))) as [shown Hs].
  exists shown. now rewrite Hs.
Qed.

Lemma percent_not_dash (shown : jsstring) : shown ++ lit "%" <> dash.
Proof.
  destruct shown as [|a shown]; cbn; [discriminate|].
  intros H. injection H as _ H. destruct shown; discriminate.
Qed.

(** C3 (as the program has it).  The calculator removes the commas of both
    texts before parsing them: the result is the deviation of the two texts
    with their commas removed, and commas in either text change nothing. *)
Theorem calcDiffAbs_commas_both (prev curr : jsstring) :
  calcDiffAbs prev curr
  = deviation_result (parseFloat (remove_commas prev))
                     (parseFloat (remove_commas curr))
  /\ calcDiffAbs prev curr
     = calcDiffAbs (remove_commas prev) (remove_commas curr).
Proof.
  split; [apply calcDiffAbs_parsed|].
  rewrite !calcDiffAbs_parsed. unfold parsed.
  now rewrite !remove_commas_idempotent.
Qed.

(** C3 as stated fails: with the current text ["1,30"] parsed as given
    ([parseFloat] stops at the comma and yields 1) the deviation from
    ["100"] would be 99.0%, above the threshold; the program reads 130 and
    shows 30.0%, below it. *)
Lemma current_commas_counterexample :
  computeDeviation_prior_commas_only (lit "100") (lit "1,30")
  = Normal {| text := lit "99.0%"; cls := diff_red |}
  /\ calcDiffAbs (lit "100") (lit "1,30")
     = Normal {| text := lit "30.0%"; cls := diff_green |}.
Proof. vm_compute. split; reflexivity. Qed.



(** C7.  The calculator never throws: it returns a result for every pair of
    texts.  The result is classified not applicable and shown as a dash in
    exactly one case: the prior text fails to parse, parses to zero, or the
    current text fails to parse; either of the two, class or dash, tells
    that case apart. *)
Theorem calcDiffAbs_not_applicable (prev curr : jsstring) :
  exists r,
    calcDiffAbs prev curr = Normal r
    /\ ((cls r = diff_gray /\ text r = dash)
        <-> (parses prev = false \/ is_zero (parsed prev) = true
             \/ parses curr = false))
    /\ (cls r = diff_gray
        <-> (parses prev = false \/ is_zero (parsed prev) = true
             \/ parses curr = false))
    /\ (text r = dash
        <-> (parses prev = false \/ is_zero (parsed prev) = true
             \/ parses curr = false)).
Proof.
  rewrite calcDiffAbs_parsed. unfold parses.
  destruct (deviation_result_cases (parsed prev) (parsed curr))
    as [[Hna ->] | [[Hp [Hz Hc]] [shown [_ ->]]]].
  - eexists. split; [reflexivity|]. cbn [cls text]. tauto.
  - eexists. split; [reflexivity|]. cbn [cls text].
    pose proof (percent_not_dash shown) as Hd.
    assert (Hcls : (if above_threshold (deviation (parsed prev) (parsed curr))
                    then diff_red else diff_green) <> diff_gray)
      by (destruct (above_threshold _); discriminate).
    rewrite Hp, Hz, Hc. intuition discriminate.
Qed.

(** C10.  The class comes from the deviation itself and the display from its
    rounding: ["1000"] against ["1300.4"] both parse, the prior not to zero,
    the deviation (30.04) exceeds 30 and rounds to 30; the display is
    ["30.0%"] and the class is the one above the threshold. *)
Theorem calcDiffAbs_class_unrounded :
  exists prev curr : jsstring,
    parses prev = true /\ is_zero (parsed prev) = false /\ parses curr = true
    /\ above_threshold (deviation (parsed prev) (parsed curr)) = true
    /\ round1 (deviation (parsed prev) (parsed curr)) = of_Z 30
    /\ calcDiffAbs prev curr = Normal {| text := lit "30.0%"; cls := diff_red |}.
Proof.
  exists (lit "1000"), (lit "1300.4"). vm_compute. repeat split; reflexivity.
Qed.

(** * Further properties of the program *)

(** ** Normalizer *)

Lemma cleanMeter_truthy (v : value) :
  truthy v = true ->
  cleanMeter v = toUpperCase (List.filter meter_char (String_ v)).
Proof.
  intros H. unfold cleanMeter. rewrite H. cbn [negb].
  apply trim_id. eapply List.Forall_impl; [|apply toUpperCase_canonical].
  intros a. apply canonical_not_white.
Qed.

Lemma cleanMeter_falsy (v : value) : truthy v = false -> cleanMeter v = [].
Proof. intros H. unfold cleanMeter. now rewrite H. Qed.

Lemma cleanMeter_value_canonical (v : value) :
  Forall (fun c => canonical_char c = true) (cleanMeter v).
Proof.
  destruct (truthy v) eqn:H.
  - rewrite (cleanMeter_truthy v H). apply toUpperCase_canonical.
  - rewrite (cleanMeter_falsy v H). constructor.
Qed.

Lemma cleanMeter_fixed (s : jsstring) :
  Forall (fun c => canonical_char c = true) s -> cleanMeter s = s.
Proof.
  intros H. rewrite cleanMeter_string, filter_id.
  - now apply toUpperCase_id.
  - eapply List.Forall_impl; [|exact H]. intros a. apply canonical_meter_char.
Qed.

(** X1.  The normalizer is idempotent on every value it can be given (a
    string, a Number, a boolean, [undefined]), and what it returns holds only
    upper-case ASCII letters, digits and hyphens. *)
Theorem cleanMeter_normal_form (v : value) :
  cleanMeter (Str (cleanMeter v)) = cleanMeter v
  /\ Forall (fun c => canonical_char c = true) (cleanMeter v).
Proof.
  split; [|apply cleanMeter_value_canonical].
  apply cleanMeter_fixed, cleanMeter_value_canonical.
Qed.







(** ** Matcher *)

(** When the test of [find] looks at a key only, what it returns is the
    first element with its key. *)
Lemma find_by_key {A} (key : A -> jsstring) (g : jsstring -> bool)
    (l : list A) (x : A) :
  find (fun y => g (key y)) l = Some x ->
  find (fun y => str_eqb (key y) (key x)) l = Some x.
Proof.
  intros H. assert (Hx : g (key x) = true) by (now apply find_some in H).
  induction l as [|y l IH]; [discriminate|]. cbn [find] in *.
  destruct (g (key y)) eqn:Hy.
  - injection H as ->. now rewrite (proj2 (str_eqb_eq _ _) eq_refl).
  - destruct (str_eqb (key y) (key x)) eqn:E; [|now apply IH].
    apply str_eqb_eq in E. congruence.
Qed.

(** Dropping elements that fail the test anyway does not change [find]. *)
Lemma find_filter {A} (f g : A -> bool) (l : list A) :
  (forall x, f x = true -> g x = true) ->
  find f (List.filter g l) = find f l.
Proof.
  intros H. induction l as [|x l IH]; [reflexivity|]. cbn [List.filter find].
  destruct (g x) eqn:Hg; cbn [find].
  - now rewrite IH.
  - destruct (f x) eqn:Hf; [|exact IH]. apply H in Hf. congruence.
Qed.

(** X3.  A record the matcher returns is a record of the store, its
    canonical identifier is not empty, and it is the first record of the
    store with that canonical identifier: a later record with the same
    identifier is never returned. *)
Theorem findPrevByOCR_first_of_its_key
    (prevData : list PrevRecord) (meterOCR : jsstring) (r : PrevRecord) :
  findPrevByOCR prevData meterOCR = Some r ->
  In r prevData
  /\ CleanMeter r <> []
  /\ exact_match prevData (CleanMeter r) = Some r.
Proof.
  rewrite findPrevByOCR_stages. cbv zeta.
  destruct (str_truthy (cleanMeter meterOCR)) eqn:Hc; [|discriminate].
  destruct (exact_match prevData (cleanMeter meterOCR)) as [q|] eqn:Hex.
  - intros [= ->]. pose proof Hex as Hf. apply find_some in Hf as [Hin Hq].
    apply str_eqb_eq in Hq. rewrite Hq.
    split; [exact Hin|]. split; [now apply str_truthy_nonempty | exact Hex].
  - destruct (str_truthy (slice_last 6 (keep_digits (cleanMeter meterOCR))))
      eqn:Hl; [|discriminate].
    intros Hf. pose proof Hf as Hf'. apply find_some in Hf' as [Hin Hr].
    split; [exact Hin|]. split.
    + apply str_eqb_eq in Hr. intros E. unfold record_digits in Hr.
      rewrite E in Hr. cbn in Hr. rewrite <- Hr in Hl. discriminate.
    + unfold exact_match.
      apply (find_by_key CleanMeter
               (fun k => str_eqb (slice_last 6 (keep_digits k))
                           (slice_last 6 (keep_digits (cleanMeter meterOCR))))).
      exact Hf.
Qed.

(** Two records with the digits 392020; the first is the one returned. *)
Lemma findPrevByOCR_first_of_its_key_witness :
  exact_match [record "Ana" "AJP1524392020" "10"; record "Dup" "ajp 1524392020" "99"]
              (lit "AJP1524392020")
  = Some (record "Ana" "AJP1524392020" "10").
Proof.
  apply (findPrevByOCR_first_of_its_key
           [record "Ana" "AJP1524392020" "10"; record "Dup" "ajp 1524392020" "99"]
           (lit "zz392020") (record "Ana" "AJP1524392020" "10")).
  reflexivity.
Defined.

(** X4.  The matcher sees its input through the normalizer only: two inputs
    with the same normalized form are matched to the same record, and the
    normalized form of an input is matched as the input is. *)
Theorem findPrevByOCR_normalized_input (prevData : list PrevRecord) :
  (forall m1 m2 : jsstring,
      cleanMeter m1 = cleanMeter m2 ->
      findPrevByOCR prevData m1 = findPrevByOCR prevData m2)
  /\ (forall m : jsstring,
        findPrevByOCR prevData (cleanMeter m) = findPrevByOCR prevData m).
Proof.
  assert (H : forall m1 m2 : jsstring,
             cleanMeter m1 = cleanMeter m2 ->
             findPrevByOCR prevData m1 = findPrevByOCR prevData m2).
  { intros m1 m2 E. rewrite !findPrevByOCR_stages. cbv zeta. now rewrite E. }
  split; [exact H|].
  intros m. apply H. apply cleanMeter_fixed, cleanMeter_value_canonical.
Qed.

Lemma findPrevByOCR_normalized_input_witness :
  findPrevByOCR [record "Ana" "AJP1524392020" "10"] (lit "a.j.p/1524 392020")
  = findPrevByOCR [record "Ana" "AJP1524392020" "10"] (lit "AJP1524392020").
Proof.
  apply (proj1 (findPrevByOCR_normalized_input [record "Ana" "AJP1524392020" "10"])).
  reflexivity.
Defined.

Lemma findPrevByOCR_filter_nonblank (prevData : list PrevRecord) (meterOCR : jsstring) :
  findPrevByOCR (List.filter nonblank prevData) meterOCR
  = findPrevByOCR prevData meterOCR.
Proof.
  rewrite !findPrevByOCR_stages. cbv zeta.
  destruct (str_truthy (cleanMeter meterOCR)) eqn:Hc; [|reflexivity].
  unfold exact_match. rewrite find_filter.
  2:{ intros p Hp. apply str_eqb_eq in Hp. unfold nonblank. now rewrite Hp. }
  destruct (find _ prevData); [reflexivity|].
  destruct (str_truthy (slice_last 6 (keep_digits (cleanMeter meterOCR)))) eqn:Hl;
    [|reflexivity].
  apply find_filter. intros p Hp. apply str_eqb_eq in Hp. unfold nonblank.
  destruct (CleanMeter p) eqn:E; [|reflexivity].
  unfold record_digits in Hp. rewrite E in Hp. cbn in Hp.
  rewrite <- Hp in Hl. discriminate.
Qed.

(** X5.  Records without a canonical identifier are invisible to the
    matcher: removing them from the store changes no match. *)
Theorem findPrevByOCR_skips_blank (prevData : list PrevRecord) (meterOCR : jsstring) :
  findPrevByOCR (List.filter nonblank prevData) meterOCR
  = findPrevByOCR prevData meterOCR.
Proof. apply findPrevByOCR_filter_nonblank. Qed.

(** ** Export *)

(** The export in its two parts. *)
Lemma exportRows_two_parts (prevData : list PrevRecord) (ocr : list OcrEntry) :
  exportRows prevData ocr
  = List.map (capture_row prevData) ocr
    ++ List.map prior_row (List.filter (unmatched prevData ocr) prevData).
Proof.
  unfold exportRows.
  destruct (fold_left (export_ocr_step prevData) ocr ([], ∅)) as [rows keys] eqn:E.
  destruct (export_first_pass prevData ocr [] ∅) as [Hrows Hkeys].
  rewrite E in Hrows, Hkeys. cbn [fst snd] in Hrows, Hkeys. subst rows.
  rewrite export_second_pass. cbn [app]. do 2 f_equal.
  apply filter_ext. intros p. unfold unmatched.
  destruct (str_truthy (CleanMeter p)) eqn:Hp; cbn [andb]; [|reflexivity].
  f_equal. apply eq_true_iff_eq. rewrite bool_decide_eq_true.
  rewrite Hkeys by now apply str_truthy_nonempty.
  rewrite elem_of_empty. tauto.
Qed.

Lemma capture_row_ext (pd1 pd2 : list PrevRecord) (r : OcrEntry) :
  findPrevByOCR pd1 (meterOCR r) = findPrevByOCR pd2 (meterOCR r) ->
  capture_row pd1 r = capture_row pd2 r.
Proof. unfold capture_row. now intros ->. Qed.

Lemma key_matched_ext (pd1 pd2 : list PrevRecord) (ocr : list OcrEntry) (k : jsstring) :
  (forall m, findPrevByOCR pd1 m = findPrevByOCR pd2 m) ->
  key_matched pd1 ocr k = key_matched pd2 ocr k.
Proof.
  intros H. unfold key_matched. induction ocr as [|r ocr IH]; [reflexivity|].
  cbn [existsb]. now rewrite H, IH.
Qed.

Lemma filter_filter_and {A} (f g : A -> bool) (l : list A) :
  List.filter f (List.filter g l) = List.filter (fun x => g x && f x) l.
Proof.
  induction l as [|x l IH]; [reflexivity|]. cbn [List.filter].
  destruct (g x); cbn [List.filter andb]; [|exact IH].
  destruct (f x); now rewrite IH.
Qed.

(** X6.  Records without a canonical identifier leave no trace in the
    export: the exported rows are those of the store without them.  Such a
    record is dropped from the exported sheet. *)
Theorem exportRows_drops_blank (prevData : list PrevRecord) (ocrResults : list OcrEntry) :
  exportRows prevData ocrResults
  = exportRows (List.filter nonblank prevData) ocrResults
  /\ (forall p, CleanMeter p = [] ->
                unmatched prevData ocrResults p = false
                /\ forall m, findPrevByOCR prevData m <> Some p).
Proof.
  split.
  - rewrite !exportRows_two_parts. f_equal.
    + apply map_ext. intros r. apply capture_row_ext.
      symmetry. apply findPrevByOCR_filter_nonblank.
    + f_equal. rewrite filter_filter_and. apply filter_ext. intros p.
      unfold unmatched, nonblank.
      destruct (str_truthy (CleanMeter p)); cbn [andb]; [|reflexivity].
      f_equal. apply key_matched_ext. intros m.
      symmetry. apply findPrevByOCR_filter_nonblank.
  - intros p Hp. split.
    + unfold unmatched. now rewrite Hp.
    + intros m Hm. rewrite findPrevByOCR_stages in Hm. cbv zeta in Hm.
      destruct (str_truthy (cleanMeter m)) eqn:Hc; [|discriminate].
      destruct (exact_match prevData (cleanMeter m)) as [q|] eqn:Hex.
      * injection Hm as ->. apply find_some in Hex as [_ Hq].
        apply str_eqb_eq in Hq. rewrite Hp in Hq. rewrite <- Hq in Hc. discriminate.
      * destruct (str_truthy (slice_last 6 (keep_digits (cleanMeter m)))) eqn:Hl;
          [|discriminate].
        apply find_some in Hm as [_ Hq]. apply str_eqb_eq in Hq.
        unfold record_digits in Hq. rewrite Hp in Hq. cbn in Hq.
        rewrite <- Hq in Hl. discriminate.
Qed.

Lemma exportRows_drops_blank_witness :
  unmatched [record "Eve" " ?? " "5"] [] (record "Eve" " ?? " "5") = false.
Proof.
  apply (proj2 (exportRows_drops_blank [record "Eve" " ?? " "5"] [])
           (record "Eve" " ?? " "5")).
  reflexivity.
Defined.

Lemma filter_length_le {A} (f : A -> bool) (l : list A) :
  (length (List.filter f l) <= length l)%nat.
Proof.
  induction l as [|x l IH]; cbn [List.filter length]; [lia|].
  destruct (f x); cbn [length]; lia.
Qed.

(** X7.  The export has a row for every capture entry and at most one more
    for every prior record.  With no capture entry it is the rows of the
    prior records that have a canonical identifier, in store order; with an
    empty store every row carries the placeholder and the entry's
    consumption field. *)
Theorem exportRows_size_and_edges (prevData : list PrevRecord) (ocrResults : list OcrEntry) :
  (length ocrResults <= length (exportRows prevData ocrResults)
   <= length ocrResults + length prevData)%nat
  /\ exportRows prevData [] = List.map prior_row (List.filter nonblank prevData)
  /\ exportRows [] ocrResults
     = List.map (fun r => {| col_Name := not_found; col_MeterNo := not_found;
                             col_PrevConsumption := not_found;
                             col_CurrentConsumption := consumptionOCR r |})
                ocrResults.
Proof.
  split; [|split].
  - rewrite exportRows_two_parts, length_app, !length_map.
    pose proof (filter_length_le (unmatched prevData ocrResults) prevData). lia.
  - rewrite exportRows_two_parts. cbn [List.map app]. f_equal.
    apply filter_ext. intros p. unfold unmatched, nonblank, key_matched.
    cbn [existsb negb]. apply andb_true_r.
  - rewrite exportRows_two_parts. cbn [List.filter List.map]. rewrite app_nil_r.
    apply map_ext. intros r. unfold capture_row.
    rewrite findPrevByOCR_stages. cbv zeta. unfold exact_match. cbn [find].
    destruct (str_truthy (cleanMeter (meterOCR r))); [|reflexivity].
    now destruct (str_truthy (slice_last 6 (keep_digits (cleanMeter (meterOCR r))))).
Qed.

(** ** Record store *)

Lemma trimStart_idempotent (s : jsstring) : trimStart (trimStart s) = trimStart s.
Proof.
  induction s as [|c s IH]; [reflexivity|]. cbn [trimStart].
  destruct (is_white c) eqn:Hc; [exact IH|]. cbn [trimStart]. now rewrite Hc.
Qed.

Lemma trimStart_snoc (s : jsstring) (c : char) :
  is_white c = false -> trimStart (s ++ [c]) = trimStart s ++ [c].
Proof.
  intros Hc. induction s as [|a s IH]; cbn [trimStart app].
  - now rewrite Hc.
  - destruct (is_white a); [exact IH | reflexivity].
Qed.

Lemma trimEnd_cons (c : char) (s : jsstring) :
  is_white c = false -> trimEnd (c :: s) = c :: trimEnd s.
Proof.
  intros Hc. unfold trimEnd. cbn [rev].
  now rewrite (trimStart_snoc _ _ Hc), rev_app_distr.
Qed.

Lemma trimEnd_idempotent (s : jsstring) : trimEnd (trimEnd s) = trimEnd s.
Proof. unfold trimEnd. now rewrite rev_involutive, trimStart_idempotent. Qed.

Lemma trim_idempotent (s : jsstring) : trim (trim s) = trim s.
Proof.
  unfold trim. destruct (trimStart s) as [|c t] eqn:E; [reflexivity|].
  assert (Hc : is_white c = false).
  { pose proof (trimStart_idempotent s) as H. rewrite E in H. cbn [trimStart] in H.
    destruct (is_white c) eqn:Hc; [|reflexivity].
    exfalso. clear E. assert (L : (length (trimStart t) <= length t)%nat).
    { clear. induction t as [|a t IH]; cbn [trimStart]; [lia|].
      destruct (is_white a); cbn [length]; lia. }
    rewrite H in L. cbn [length] in L. lia. }
  rewrite (trimEnd_cons c t Hc). cbn [trimStart]. rewrite Hc.
  now rewrite (trimEnd_cons c _ Hc), trimEnd_idempotent.
Qed.

Lemma filter_trimStart (f : char -> bool) (s : jsstring) :
  (forall c, is_white c = true -> f c = false) ->
  List.filter f (trimStart s) = List.filter f s.
Proof.
  intros H. induction s as [|c s IH]; [reflexivity|]. cbn [trimStart].
  destruct (is_white c) eqn:Hc; [|reflexivity].
  cbn [List.filter]. now rewrite (H c Hc).
Qed.

Lemma filter_rev_comm {A} (f : A -> bool) (l : list A) :
  List.filter f (rev l) = rev (List.filter f l).
Proof.
  induction l as [|x l IH]; [reflexivity|]. cbn [rev List.filter].
  rewrite List.filter_app, IH. cbn [List.filter].
  destruct (f x); cbn [rev]; [reflexivity | now rewrite app_nil_r].
Qed.

Lemma filter_trim (f : char -> bool) (s : jsstring) :
  (forall c, is_white c = true -> f c = false) ->
  List.filter f (trim s) = List.filter f s.
Proof.
  intros H. unfold trim, trimEnd.
  rewrite filter_rev_comm, (filter_trimStart f _ H), filter_rev_comm.
  now rewrite rev_involutive, (filter_trimStart f _ H).
Qed.

Lemma white_not_meter (c : char) : is_white c = true -> meter_char c = false.
Proof.
  intros Hw. destruct (meter_char c) eqn:Hm; [|reflexivity].
  assert (Hcan : canonical_char (if is_lower c then c - 32 else c)%N = true)
    by now apply upper_canonical.
  destruct (is_lower c) eqn:Hl.
  - unfold is_white, is_lower, in_range in *.
    rewrite !orb_true_iff, !andb_true_iff, !N.leb_le, !N.eqb_eq in Hw.
    rewrite andb_true_iff, !N.leb_le in Hl. lia.
  - apply canonical_not_white in Hcan. congruence.
Qed.

(** The value the [||] chain of a field ends with is truthy or the empty
    string. *)
Lemma first_truthy_cases (row : object) (aliases : list string) :
  truthy (first_truthy row aliases) = true
  \/ first_truthy row aliases = Str [].
Proof.
  unfold first_truthy.
  destruct (find (fun k => truthy (get row k)) aliases) as [k|] eqn:E.
  - left. now apply find_some in E.
  - right. reflexivity.
Qed.

Lemma cleanMeter_of_trimmed (v : value) :
  truthy v = true \/ v = Str [] ->
  cleanMeter (Str (trim (String_ v))) = cleanMeter v.
Proof.
  intros [H | ->]; [|reflexivity].
  rewrite cleanMeter_string, (cleanMeter_truthy v H).
  now rewrite (filter_trim meter_char _ white_not_meter).
Qed.

Lemma prevRecord_of_row_well_loaded (row : object) :
  well_loaded (prevRecord_of_row row).
Proof.
  unfold well_loaded, prevRecord_of_row.
  cbn [Name Meter CleanMeter Consumption].
  rewrite identifier_chain.
  repeat split; try apply trim_idempotent.
  - symmetry. apply cleanMeter_of_trimmed, first_truthy_cases.
  - apply cleanMeter_value_canonical.
Qed.

Lemma load_well_loaded (json : list object) (r : PrevRecord) :
  In r (load json) -> well_loaded r.
Proof.
  unfold load. intros H. apply in_map_iff in H as [row [<- _]].
  apply prevRecord_of_row_well_loaded.
Qed.

(** X8.  Loading keeps every row of the sheet, in order, and every record
    of the store it builds has a canonical identifier that is the normalizer
    applied to its shown identifier, made of upper-case letters, digits and
    hyphens only, and a name, identifier and consumption without white space
    at either end. *)
Theorem load_invariant (json : list object) :
  length (load json) = length json
  /\ Forall well_loaded (load json).
Proof.
  split; [apply length_map|].
  apply List.Forall_forall. intros r. apply load_well_loaded.
Qed.

(** The exact stage finds a record for an input that normalizes to the
    canonical identifier of a stored record. *)
Lemma exact_stage_hit (prevData : list PrevRecord) (m : jsstring) (r : PrevRecord) :
  cleanMeter m <> [] -> In r prevData -> CleanMeter r = cleanMeter m ->
  exists r', findPrevByOCR prevData m = Some r'
             /\ exact_match prevData (cleanMeter m) = Some r'
             /\ CleanMeter r' = cleanMeter m.
Proof.
  intros Hne Hin Hr.
  destruct (find_exists (fun q => str_eqb (CleanMeter q) (cleanMeter m))
              prevData r Hin) as [r' [Hf [_ Hr']]].
  { now apply str_eqb_eq. }
  exists r'. rewrite findPrevByOCR_stages. cbv zeta.
  apply str_truthy_nonempty in Hne. rewrite Hne.
  unfold exact_match. rewrite Hf. apply str_eqb_eq in Hr'. auto.
Qed.

(** X9.  Round trip through the store: the identifier of a loaded record, as
    the sheet shows it, is matched to a record with the same canonical
    identifier (the first one of the store), provided that identifier is not
    empty. *)
Theorem load_then_match (json : list object) (r : PrevRecord) :
  In r (load json) -> CleanMeter r <> [] ->
  exists r', findPrevByOCR (load json) (Meter r) = Some r'
             /\ CleanMeter r' = CleanMeter r
             /\ exact_match (load json) (CleanMeter r) = Some r'.
Proof.
  intros Hin Hne.
  destruct (load_well_loaded json r Hin) as [Hc _].
  destruct (exact_stage_hit (load json) (Meter r) r) as [r' [Hf [Hex Hr']]];
    [congruence | exact Hin | exact Hc |].
  exists r'. rewrite Hc. auto.
Qed.

(** A sheet of one row whose meter cell has spaces around it. *)
Lemma load_then_match_witness :
  exists r',
    findPrevByOCR (load [ {[ lit "Meter No." := Str (lit " ajp-1524 ") ]} ])
                  (lit "ajp-1524") = Some r'
    /\ CleanMeter r' = lit "AJP-1524"
    /\ exact_match (load [ {[ lit "Meter No." := Str (lit " ajp-1524 ") ]} ])
                   (lit "AJP-1524") = Some r'.
Proof.
  pose proof (load_then_match [ {[ lit "Meter No." := Str (lit " ajp-1524 ") ]} ]
                (prevRecord_of_row {[ lit "Meter No." := Str (lit " ajp-1524 ") ]})
                (or_introl eq_refl)) as H.
  assert (Hne : CleanMeter (prevRecord_of_row
                              {[ lit "Meter No." := Str (lit " ajp-1524 ") ]}) <> [])
    by (vm_compute; discriminate).
  specialize (H Hne).
  replace (Meter (prevRecord_of_row {[ lit "Meter No." := Str (lit " ajp-1524 ") ]}))
    with (lit "ajp-1524") in H by (vm_compute; reflexivity).
  replace (CleanMeter (prevRecord_of_row {[ lit "Meter No." := Str (lit " ajp-1524 ") ]}))
    with (lit "AJP-1524") in H by (vm_compute; reflexivity).
  exact H.
Defined.

(** ** Deviation calculator *)

Lemma sub_self (s : bool) (m : positive) (e : Z) :
  sub (S754_finite s m e) (S754_finite s m e) = S754_zero false.
Proof. unfold sub, SFsub. now rewrite Z.sub_diag. Qed.

Lemma deviation_self (s : bool) (m : positive) (e : Z) :
  deviation (S754_finite s m e) (S754_finite s m e) = S754_zero false.
Proof.
  unfold deviation. rewrite sub_self.
  remember (of_Z 100) as h eqn:Hh. vm_compute in Hh. subst h.
  reflexivity.
Qed.

(** X10.  Equal readings: when the two texts parse to the same Number, not
    zero, the calculator shows ["0.0%"], below the threshold. *)
Theorem calcDiffAbs_equal_readings (prev curr : jsstring) :
  parses prev = true -> is_zero (parsed prev) = false ->
  parsed curr = parsed prev ->
  calcDiffAbs prev curr = Normal {| text := lit "0.0%"; cls := diff_green |}.
Proof.
  intros Hp Hz Hc. rewrite calcDiffAbs_parsed, Hc. unfold parses in Hp.
  destruct (parsed prev) as [s | s | | s m e]; cbn [isFinite] in Hp;
    try discriminate Hp.
  - destruct s; vm_compute in Hz; discriminate Hz.
  - unfold deviation_result. rewrite Hz. cbn [isFinite negb orb].
    rewrite deviation_self. reflexivity.
Qed.

(** The same reading written in two ways. *)
Lemma calcDiffAbs_equal_readings_witness :
  calcDiffAbs (lit "1,250") (lit "1250.0")
  = Normal {| text := lit "0.0%"; cls := diff_green |}.
Proof.
  apply calcDiffAbs_equal_readings; reflexivity.
Defined.

Lemma binary_round_aux_nonneg (mx ex : Z) (lx : location) :
  nonneg (binary_round_aux prec emax false mx ex lx).
Proof.
  unfold binary_round_aux.
  destruct (shr_fexp prec emax mx ex lx) as [mrs' e'].
  destruct (shr_fexp prec emax _ e' loc_Exact) as [mrs'' e''].
  destruct (shr_m mrs''); [reflexivity | | exact I].
  destruct (Z.leb e'' _); reflexivity.
Qed.

Lemma mul_nonneg (x y : Number) : nonneg x -> nonneg y -> nonneg (mul x y).
Proof.
  destruct x as [sx | sx | | sx mx ex], y as [sy | sy | | sy my ey];
    cbn [nonneg mul SFmul]; intros Hx Hy; subst; try reflexivity; try exact I.
  apply binary_round_aux_nonneg.
Qed.

Lemma div_nonneg (x y : Number) : nonneg x -> nonneg y -> nonneg (div x y).
Proof.
  destruct x as [sx | sx | | sx mx ex], y as [sy | sy | | sy my ey];
    cbn [nonneg div SFdiv]; intros Hx Hy; subst; try reflexivity; try exact I.
  destruct (SFdiv_core_binary prec emax (Zpos mx) ex (Zpos my) ey) as [[mz ez] lz].
  apply binary_round_aux_nonneg.
Qed.

Lemma abs_nonneg (x : Number) : nonneg (Math_abs x).
Proof. destruct x; cbn; trivial. Qed.

Lemma of_Z_nonneg (z : Z) : 0 <= z -> nonneg (of_Z z).
Proof.
  intros Hz. unfold of_Z, binary_normalize. destruct z as [|p|p]; [reflexivity| |lia].
  unfold binary_round. destruct (shl_align _ _ _) as [mz ez].
  apply binary_round_aux_nonneg.
Qed.

Lemma round_nonneg (x : Number) : nonneg x -> nonneg (Math_round x).
Proof.
  destruct x as [s | s | | s m e]; cbn [nonneg Math_round]; trivial.
  intros ->. destruct (Z.leb_spec 0 e) as [|He]; [reflexivity|]. cbn [cond_Zopp].
  destruct (Z.eqb_spec ((2 * Z.pos m + 2 ^ (- e)) / 2 ^ (1 - e)) 0);
    [reflexivity|].
  apply of_Z_nonneg. apply Z.div_pos.
  - pose proof (Z.pow_nonneg 2 (- e)). lia.
  - apply Z.pow_pos_nonneg; lia.
Qed.

Lemma round1_deviation_nonneg (pn cn : Number) : nonneg (round1 (deviation pn cn)).
Proof.
  unfold round1, deviation.
  apply div_nonneg; [|now apply of_Z_nonneg].
  apply round_nonneg, mul_nonneg; [apply abs_nonneg | now apply of_Z_nonneg].
Qed.

Lemma uint_chars_digits (u : Decimal.uint) : Forall (fun c => is_digit c = true) (uint_chars u).
Proof. induction u; cbn [uint_chars]; constructor; auto. Qed.

Lemma decimal_digits (z : Z) : Forall (fun c => is_digit c = true) (decimal z).
Proof. apply uint_chars_digits. Qed.

Lemma zeros_digits (n : Z) : Forall (fun c => is_digit c = true) (zeros n).
Proof.
  unfold zeros. apply List.Forall_forall. intros c Hc.
  apply repeat_spec in Hc. now subst.
Qed.

Lemma digit_not_minus (c : char) : is_digit c = true -> c <> 45%N.
Proof.
  unfold is_digit, in_range. rewrite andb_true_iff, !N.leb_le. lia.
Qed.

Lemma unsigned_text_digits (ds rest : jsstring) :
  Forall (fun c => is_digit c = true) ds -> unsigned_text rest ->
  unsigned_text (ds ++ rest).
Proof.
  intros Hd Hr. destruct Hd as [|c ds Hc _]; [exact Hr|].
  cbn. now apply digit_not_minus.
Qed.

Lemma fixed_digits_unsigned (q : ratio) (f : Z) : unsigned_text (fixed_digits q f).
Proof.
  unfold fixed_digits. destruct (scale10 q f) as [a b].
  destruct (f =? 0).
  - rewrite <- (app_nil_r (decimal _)).
    apply unsigned_text_digits; [apply decimal_digits | exact I].
  - apply unsigned_text_digits.
    + apply Forall_take, Forall_app. split; [apply zeros_digits | apply decimal_digits].
    + cbn. discriminate.
Qed.

Lemma format_digits_unsigned (s n : Z) : unsigned_text (format_digits s n).
Proof.
  unfold format_digits.
  destruct ((-5 <=? n) && (n <=? 21)).
  - destruct (_ <=? n).
    + apply unsigned_text_digits; [apply decimal_digits|].
      pose proof (zeros_digits (n - Z.of_nat (length (decimal s)))) as Hz.
      destruct Hz as [|c l Hc _]; [exact I | now apply digit_not_minus].
    + destruct (0 <? n).
      * apply unsigned_text_digits; [apply Forall_take, decimal_digits|].
        cbn. discriminate.
      * cbn. discriminate.
  - destruct (_ =? 1) eqn:Hk.
    + pose proof (decimal_digits s) as Hd.
      destruct Hd as [|c l Hc _]; [discriminate Hk|].
      cbn. now apply digit_not_minus.
    + apply unsigned_text_digits; [apply Forall_take, decimal_digits|].
      cbn. discriminate.
Qed.

Lemma toFixed_unsigned (x : Number) (shown : jsstring) :
  nonneg x -> toFixed x 1 = Normal shown -> unsigned_text shown.
Proof.
  intros Hx. unfold toFixed. cbn [Z.ltb Z.compare orb].
  intros [= <-].
  destruct x as [s | s | | s m e]; cbn [nonneg] in Hx; subst.
  - apply fixed_digits_unsigned.
  - cbn. discriminate.
  - cbn. discriminate.
  - destruct (lt_pow10 (exact m e) 21).
    + cbn [lit List.map list_ascii_of_string app]. apply fixed_digits_unsigned.
    + unfold Number_toString.
      destruct (shortest _ _ _ _ _) as [d n].
      cbn [lit List.map list_ascii_of_string app]. apply format_digits_unsigned.
Qed.

(** X11.  The percentage shown is an absolute value: whatever the two
    texts, the calculator returns a display that does not begin with a minus
    sign, and the deviation it classifies has no sign. *)
Theorem calcDiffAbs_unsigned (prev curr : jsstring) :
  nonneg (deviation (parsed prev) (parsed curr))
  /\ exists r, calcDiffAbs prev curr = Normal r /\ unsigned_text (text r).
Proof.
  split; [apply abs_nonneg|].
  rewrite calcDiffAbs_parsed.
  destruct (deviation_result_cases (parsed prev) (parsed curr))
    as [[_ ->] | [_ [shown [Hs ->]]]].
  - eexists. split; [reflexivity|]. cbn. discriminate.
  - eexists. split; [reflexivity|]. cbn [text].
    apply toFixed_unsigned in Hs; [|apply round1_deviation_nonneg].
    destruct shown as [|c shown]; [cbn; discriminate | exact Hs].
Qed.

(** ** Regular expressions *)

Lemma try_down_some {R} (f : nat -> option R) (min j : nat) (r : R) :
  try_down f min j = Some r ->
  exists i, (min <= i <= j)%nat /\ f i = Some r.
Proof.
  induction j as [|j IH]; cbn [try_down].
  - destruct (Nat.ltb_spec 0 min) as [Hlt|Hge]; [discriminate|].
    destruct (f 0%nat) eqn:E; [|discriminate].
    intros [= <-]. exists 0%nat. split; [lia | exact E].
  - destruct (Nat.ltb_spec (S j) min) as [Hlt|Hge]; [discriminate|].
    destruct (f (S j)) eqn:E.
    + intros [= <-]. exists (S j). split; [lia | exact E].
    + intros H. apply IH in H as [i [Hi Hf]]. exists i. split; [lia | exact Hf].
Qed.

(** Outside the group nothing is collected. *)
Lemma match_from_no_group (items : pattern) :
  no_group items = true ->
  forall prev rest acc r,
    match_from items prev rest false acc = Some r -> r = rev acc.
Proof.
  induction items as [|it items IH]; intros Hng prev rest acc r.
  - cbn. now intros [= <-].
  - cbn [no_group forallb] in Hng. apply andb_true_iff in Hng as [Hit Hng].
    specialize (IH Hng).
    destruct it as [p | p min max | | |]; try discriminate; cbn [match_from].
    + destruct rest as [|c rest]; [discriminate|].
      destruct (p c); [apply IH | discriminate].
    + intros H. apply try_down_some in H as [i [_ Hi]]. now apply IH in Hi.
    + destruct (xorb _ _); [apply IH | discriminate].
Qed.

(** The items before the group bring the match to some later position of
    the text. *)
Lemma match_from_before_group (pre group : pattern) :
  no_group pre = true ->
  forall prev rest r,
    match_from (pre ++ group) prev rest false [] = Some r ->
    exists prev' skipped rest',
      rest = skipped ++ rest'
      /\ match_from group prev' rest' false [] = Some r.
Proof.
  induction pre as [|it pre IH]; intros Hng prev rest r.
  - cbn [app]. intros H. exists prev, [], rest. auto.
  - cbn [no_group forallb] in Hng. apply andb_true_iff in Hng as [Hit Hng].
    specialize (IH Hng).
    destruct it as [p | p min max | | |]; try discriminate;
      cbn [app match_from].
    + destruct rest as [|c rest]; [discriminate|].
      destruct (p c); [|discriminate].
      intros H. apply IH in H as [prev' [sk [rest' [-> H']]]].
      exists prev', (c :: sk), rest'. auto.
    + intros H. apply try_down_some in H as [i [_ Hi]].
      apply IH in Hi as [prev' [sk [rest' [E H']]]].
      exists prev', (take i rest ++ sk), rest'. split; [|exact H'].
      now rewrite <- app_assoc, <- E, take_drop.
    + destruct (xorb _ _); [apply IH | discriminate].
Qed.

Lemma search_position (items : pattern) (text : jsstring) :
  forall prev r,
    search items prev text = Some r ->
    exists prev' skipped rest,
      text = skipped ++ rest
      /\ match_from items prev' rest false [] = Some r.
Proof.
  induction text as [|c text IH]; intros prev r; cbn [search].
  - destruct (match_from items prev [] false []) eqn:E; [|discriminate].
    intros [= <-]. exists prev, [], []. auto.
  - destruct (match_from items prev (c :: text) false []) eqn:E.
    + intros [= <-]. exists prev, [], (c :: text). auto.
    + intros H. apply IH in H as [prev' [sk [rest [-> H']]]].
      exists prev', (c :: sk), rest. auto.
Qed.

Lemma run_length_take (p : char -> bool) (s : jsstring) (j : nat) :
  (j <= run_length p s)%nat ->
  Forall (fun c => p c = true) (take j s) /\ length (take j s) = j.
Proof.
  revert j. induction s as [|c s IH]; intros j Hj; cbn [run_length] in Hj.
  - assert (j = 0%nat) as -> by lia. split; [constructor | reflexivity].
  - destruct j as [|j]; [split; [constructor | reflexivity]|].
    destruct (p c) eqn:Hc; [|lia].
    destruct (IH j) as [HF HL]; [lia|].
    cbn [take length]. split; [now constructor | now rewrite HL].
Qed.

(** A group that is one quantified class captures a run of the class, of a
    length within the bounds of the quantifier, standing in the text. *)
Lemma match_class_group (pre post : pattern) (p : char -> bool) (min max : nat)
    (text m1 : jsstring) :
  no_group pre = true -> no_group post = true ->
  match_ text (pre ++ [Open; Many p min (Some max); Close] ++ post) = Some m1 ->
  Forall (fun c => p c = true) m1
  /\ (min <= length m1 <= max)%nat
  /\ exists before_ after_, text = before_ ++ m1 ++ after_.
Proof.
  intros Hpre Hpost H. unfold match_ in H.
  apply search_position in H as [prev1 [sk1 [rest1 [-> H1]]]].
  apply (match_from_before_group pre _ Hpre) in H1 as [prev2 [sk2 [rest2 [-> H2]]]].
  cbn [app match_from] in H2.
  apply try_down_some in H2 as [j [Hj H3]].
  apply (match_from_no_group post Hpost) in H3.
  rewrite app_nil_r, rev_involutive in H3. subst m1.
  destruct (run_length_take p rest2 j) as [HF HL]; [lia|].
  split; [exact HF|]. split; [lia|].
  exists (sk1 ++ sk2), (drop j rest2).
  now rewrite <- app_assoc, take_drop.
Qed.

(** ** OCR text extraction *)

Lemma match_qty_digits (text m1 : jsstring) :
  match_ text re_qty = Some m1 \/ match_ text re_quantity = Some m1
  \/ match_ text re_small_number = Some m1 ->
  Forall (fun c => is_digit c = true) m1
  /\ (1 <= length m1 <= 5)%nat
  /\ exists before_ after_, text = before_ ++ m1 ++ after_.
Proof.
  intros [H | [H | H]].
  - apply (match_class_group
             [One (chr_i "Q"); One (chr_i "t"); One (chr_i "y"); spaces;
              optional (chr ":"); spaces; Many is_break_or_white 0 None]
             [] is_digit 1 5 text m1 eq_refl eq_refl H).
  - apply (match_class_group
             [One (chr_i "Q"); One (chr_i "u"); One (chr_i "a"); One (chr_i "n");
              One (chr_i "t"); One (chr_i "i"); One (chr_i "t"); One (chr_i "y");
              spaces; optional (chr ":"); spaces; Many is_break_or_white 0 None]
             [] is_digit 1 5 text m1 eq_refl eq_refl H).
  - destruct (match_class_group [WordBoundary] [WordBoundary] is_digit 1 4
                text m1 eq_refl eq_refl H) as [HF [HL HI]].
    split; [exact HF|]. split; [lia | exact HI].
Qed.

Lemma extractConsumption_digits_cases (data : option jsstring) :
  extractConsumptionFromTextBlocks data = []
  \/ (Forall (fun c => is_digit c = true) (extractConsumptionFromTextBlocks data)
      /\ (1 <= length (extractConsumptionFromTextBlocks data) <= 5)%nat
      /\ exists before_ after_,
           ocr_text data
           = before_ ++ extractConsumptionFromTextBlocks data ++ after_).
Proof.
  unfold extractConsumptionFromTextBlocks. cbv zeta.
  set (text := ocr_text data).
  assert (H3 : forall m1, match_ text re_small_number = Some m1 ->
                 m1 = [] \/ (Forall (fun c => is_digit c = true) m1
                             /\ (1 <= length m1 <= 5)%nat
                             /\ exists b a, text = b ++ m1 ++ a)).
  { intros m1 H. right. apply match_qty_digits. auto. }
  assert (T3 : match match_ text re_small_number with
               | Some m1 => m1 | None => lit "" end = []
               \/ (Forall (fun c => is_digit c = true)
                     match match_ text re_small_number with
                     | Some m1 => m1 | None => lit "" end
                   /\ (1 <= length match match_ text re_small_number with
                                   | Some m1 => m1 | None => lit "" end <= 5)%nat
                   /\ exists b a, text = b ++ match match_ text re_small_number with
                                               | Some m1 => m1 | None => lit "" end ++ a)).
  { destruct (match_ text re_small_number) as [m1|] eqn:E; [now apply H3 | now left]. }
  destruct (match_ text re_qty) as [m1|] eqn:E1.
  - destruct (str_truthy m1) eqn:Ht.
    + right. apply match_qty_digits. auto.
    + destruct (match_ text re_quantity) as [m2|] eqn:E2; [|exact T3].
      destruct (str_truthy m2); [|exact T3].
      right. apply match_qty_digits. auto.
  - destruct (match_ text re_quantity) as [m2|] eqn:E2; [|exact T3].
    destruct (str_truthy m2); [|exact T3].
    right. apply match_qty_digits. auto.
Qed.

(** X12.  The consumption read off the recognized text is empty or a run of
    one to five digits that stands in the text. *)
Theorem extractConsumption_digits (data : option jsstring) :
  extractConsumptionFromTextBlocks data = []
  \/ (Forall (fun c => is_digit c = true) (extractConsumptionFromTextBlocks data)
      /\ (1 <= length (extractConsumptionFromTextBlocks data) <= 5)%nat
      /\ exists before_ after_,
           ocr_text data
           = before_ ++ extractConsumptionFromTextBlocks data ++ after_).
Proof. apply extractConsumption_digits_cases. Qed.

Lemma digit_not_white (c : char) : is_digit c = true -> is_white c = false.
Proof.
  intros H. apply canonical_not_white. unfold canonical_char.
  now rewrite H, orb_true_r.
Qed.

Lemma digit_range (c : char) : is_digit c = true -> (48 <= c <= 57)%N.
Proof. unfold is_digit, in_range. rewrite andb_true_iff, !N.leb_le. tauto. Qed.

Lemma split_sign_digit (c : char) (s : jsstring) :
  is_digit c = true -> split_sign (c :: s) = (false, c :: s).
Proof.
  intros H. apply digit_range in H.
  assert (E : (c = 48 \/ c = 49 \/ c = 50 \/ c = 51 \/ c = 52 \/ c = 53
               \/ c = 54 \/ c = 55 \/ c = 56 \/ c = 57)%N) by lia.
  repeat (destruct E as [-> | E]; [reflexivity|]). now subst.
Qed.

Lemma span_digits_all (ds : jsstring) :
  Forall (fun c => is_digit c = true) ds -> span_digits ds = (ds, []).
Proof.
  induction 1 as [|c ds Hc _ IH]; [reflexivity|].
  cbn [span_digits]. now rewrite Hc, IH.
Qed.

Lemma remove_commas_digits (ds : jsstring) :
  Forall (fun c => is_digit c = true) ds -> remove_commas ds = ds.
Proof.
  intros H. apply filter_id. eapply List.Forall_impl; [|exact H].
  intros c Hc. apply digit_range in Hc.
  apply negb_true_iff, N.eqb_neq. lia.
Qed.

(** A run of digits is read as the integer it writes. *)
Lemma parsed_digits (ds : jsstring) :
  Forall (fun c => is_digit c = true) ds -> ds <> [] ->
  parsed ds = of_decimal (digits_val ds) 0.
Proof.
  intros HF Hne. unfold parsed. rewrite (remove_commas_digits ds HF).
  destruct HF as [|c ds Hc HF]; [now elim Hne|].
  unfold parseFloat. cbn [trimStart]. rewrite (digit_not_white c Hc).
  rewrite (split_sign_digit c ds Hc). unfold unsigned_literal.
  change (starts_with (lit "Infinity") (c :: ds))
    with ((73 =? c)%N && starts_with (lit "nfinity") ds).
  replace (73 =? c)%N with false
    by (symmetry; apply N.eqb_neq; apply digit_range in Hc; lia).
  cbn [andb].
  rewrite (span_digits_all (c :: ds)) by now constructor.
  reflexivity.
Qed.

Lemma digits_val_acc (ds : jsstring) :
  Forall (fun c => is_digit c = true) ds ->
  forall a, 0 <= a ->
    0 <= fold_left (fun acc c => 10 * acc + digit_val c) ds a
      < (a + 1) * 10 ^ Z.of_nat (length ds).
Proof.
  induction 1 as [|c ds Hc _ IH]; intros a Ha.
  - cbn. lia.
  - cbn [fold_left length].
    assert (Hd : 0 <= digit_val c <= 9).
    { unfold digit_val. apply digit_range in Hc. lia. }
    specialize (IH (10 * a + digit_val c) ltac:(lia)).
    rewrite Nat2Z.inj_succ, Z.pow_succ_r by lia.
    split; [lia|]. nia.
Qed.

Lemma digits_val_bound (ds : jsstring) :
  Forall (fun c => is_digit c = true) ds ->
  0 <= digits_val ds < 10 ^ Z.of_nat (length ds).
Proof.
  intros H. pose proof (digits_val_acc ds H 0 ltac:(lia)) as B.
  unfold digits_val. lia.
Qed.

Lemma all_finite_spec (fuel : nat) :
  forall z, all_finite fuel z = true ->
  forall k, z <= k < z + Z.of_nat fuel -> isFinite (of_decimal k 0) = true.
Proof.
  induction fuel as [|fuel IH]; intros z H k Hk; [lia|].
  cbn [all_finite] in H. apply andb_true_iff in H as [H0 H1].
  destruct (Z.eq_dec k z) as [-> | Hne]; [exact H0|].
  apply (IH (z + 1) H1). lia.
Qed.

(** Every integer below 100000 converts to a finite Number. *)
Lemma small_integers_finite (k : Z) :
  0 <= k < 100000 -> isFinite (of_decimal k 0) = true.
Proof.
  intros Hk. apply (all_finite_spec (Z.to_nat 100000) 0).
  - vm_compute. reflexivity.
  - rewrite Z2Nat.id by lia. lia.
Qed.

(** One to five digits parse. *)
Lemma short_digits_parse (ds : jsstring) :
  Forall (fun c => is_digit c = true) ds -> (1 <= length ds <= 5)%nat ->
  parses ds = true.
Proof.
  intros HF HL. unfold parses. rewrite parsed_digits; [|exact HF|].
  - apply small_integers_finite. pose proof (digits_val_bound ds HF) as B.
    assert (10 ^ Z.of_nat (length ds) <= 10 ^ 5)
      by (apply Z.pow_le_mono_r; lia).
    change (10 ^ 5) with 100000 in *. lia.
  - intros ->. cbn in HL. lia.
Qed.

Lemma extractMeter_canonical (data : option jsstring) :
  Forall (fun c => canonical_char c = true) (extractMeterFromTextBlocks data).
Proof.
  unfold extractMeterFromTextBlocks. cbv zeta.
  assert (T : Forall (fun c => canonical_char c = true)
                match match_ (ocr_text data) re_ajp with
                | Some m1 => cleanMeter m1
                | None =>
                    match match_ (ocr_text data) re_hyphenated with
                    | Some m1 => cleanMeter m1
                    | None =>
                        match match_ (ocr_text data) re_long_token with
                        | Some m1 => cleanMeter m1
                        | None => lit ""
                        end
                    end
                end).
  { repeat (destruct (match_ _ _); [apply cleanMeter_value_canonical|]).
    constructor. }
  destruct (match_ (ocr_text data) re_meter_label) as [m1|]; [|exact T].
  destruct (str_truthy m1); [apply cleanMeter_value_canonical | exact T].
Qed.

(** X13.  What a processed image adds: one entry at the end of the ledger,
    with the next id, the store untouched.  Its meter field is the
    placeholder ["Not Found"] or a non-empty text in normal form (the
    normalizer leaves it as it is); its consumption field is the placeholder
    or one to five digits, which parse to a finite Number. *)
Theorem processImageFile_entry (st : State) (dataURL : jsstring)
    (data : option jsstring) :
  exists e,
    ocrResults (processImageFile st dataURL data) = ocrResults st ++ [e]
    /\ prevData (processImageFile st dataURL data) = prevData st
    /\ id e = nextId st
    /\ preview e = dataURL
    /\ (meterOCR e = lit "Not Found"
        \/ (meterOCR e <> [] /\ cleanMeter (meterOCR e) = meterOCR e))
    /\ (consumptionOCR e = lit "Not Found"
        \/ (Forall (fun c => is_digit c = true) (consumptionOCR e)
            /\ (1 <= length (consumptionOCR e) <= 5)%nat
            /\ parses (consumptionOCR e) = true)).
Proof.
  eexists. split; [reflexivity|]. cbn [id preview meterOCR consumptionOCR].
  split; [reflexivity|]. split; [reflexivity|]. split; [reflexivity|]. split.
  - unfold str_or.
    destruct (str_truthy (extractMeterFromTextBlocks data)) eqn:E; [|now left].
    right. split; [now apply str_truthy_nonempty|].
    apply cleanMeter_fixed, extractMeter_canonical.
  - unfold str_or.
    destruct (str_truthy (extractConsumptionFromTextBlocks data)) eqn:E; [|now left].
    right. destruct (extractConsumption_digits_cases data) as [H | [HF [HL _]]].
    + rewrite H in E. discriminate.
    + split; [exact HF|]. split; [exact HL|]. now apply short_digits_parse.
Qed.

(** ** The ledger *)

Lemma expected_id_next (n : nat) :
  increment (expected_id n) = expected_id (S n).
Proof.
  unfold increment, expected_id. rewrite Nat2Z.inj_succ.
  set (B := 2 ^ 53). destruct (Z.ltb_spec (Z.min (Z.of_nat n + 1) B) B); lia.
Qed.

Lemma set_field_id (f : field) (v : jsstring) (e : OcrEntry) :
  id (set_field f v e) = id e.
Proof. now destruct f. Qed.

Lemma map_insert {A B} (g : A -> B) (l : list A) (i : nat) (x : A) :
  List.map g (<[ i := x ]> l) = <[ i := g x ]> (List.map g l).
Proof.
  revert i. induction l as [|y l IH]; intros i; [reflexivity|].
  destruct i as [|i]; cbn; [reflexivity | now rewrite IH].
Qed.

Lemma insert_same {A} (l : list A) (i : nat) (x : A) :
  l !! i = Some x -> <[ i := x ]> l = l.
Proof. apply list_insert_id. Qed.

Lemma map_lookup {A B} (g : A -> B) (l : list A) (i : nat) (x : A) :
  l !! i = Some x -> List.map g l !! i = Some (g x).
Proof.
  revert i. induction l as [|y l IH]; intros i; [discriminate|].
  destruct i as [|i]; cbn; [now intros [= ->] | apply IH].
Qed.

Lemma step_ids_in_order (st : State) (ev : event) :
  ids_in_order st -> ids_in_order (step st ev).
Proof.
  intros [Hids Hnext]. destruct ev as [json | url data | | row f v]; cbn [step].
  - exact (conj Hids Hnext).
  - unfold ids_in_order, processImageFile. cbn [ocrResults nextId].
    rewrite length_app, Nat.add_1_r, seq_S, !map_app, Hids, Hnext.
    cbn [List.map id Nat.add]. split; [reflexivity | apply expected_id_next].
  - split; reflexivity.
  - unfold oninput. destruct (ocrResults st !! row) as [e|] eqn:E;
      [|exact (conj Hids Hnext)].
    unfold ids_in_order. cbn [ocrResults nextId].
    rewrite length_insert, map_insert, set_field_id. split; [|exact Hnext].
    rewrite insert_same; [exact Hids|]. now apply map_lookup.
Qed.

(** X14.  However the handlers are fired, the entry at index [i] of the
    ledger has id [i + 1] (2^53 at most, where a Number stops counting), and
    [nextId] is the id of the entry to come: ids follow capture order, the
    clear button restarts them at 1, loading a sheet and editing a field
    leave them alone. *)
Theorem run_ids_in_order (evs : list event) :
  List.map id (ocrResults (run evs))
  = List.map expected_id (seq 0 (length (ocrResults (run evs))))
  /\ nextId (run evs) = expected_id (length (ocrResults (run evs))).
Proof.
  unfold run. change (ids_in_order (fold_left step evs initial)).
  assert (H : ids_in_order initial) by (split; reflexivity).
  revert H. generalize initial. induction evs as [|ev evs IH]; intros st H.
  - exact H.
  - cbn [fold_left]. apply IH. now apply step_ids_in_order.
Qed.

(** ** Editing a row *)

Lemma existsb_insert {A} (f : A -> bool) (l : list A) (i : nat) (x x' : A) :
  l !! i = Some x -> f x' = f x -> existsb f (<[ i := x' ]> l) = existsb f l.
Proof.
  revert i. induction l as [|y l IH]; intros i Hi Hf; [discriminate|].
  destruct i as [|i].
  - change (<[ 0%nat := x' ]> (y :: l)) with (x' :: l).
    injection Hi as ->. cbn [existsb]. now rewrite Hf.
  - change (<[ S i := x' ]> (y :: l)) with (y :: <[ i := x' ]> l).
    cbn [existsb]. now rewrite (IH i Hi Hf).
Qed.

Lemma key_matched_insert (prevData : list PrevRecord) (ocr : list OcrEntry)
    (i : nat) (e e' : OcrEntry) (k : jsstring) :
  ocr !! i = Some e -> meterOCR e' = meterOCR e ->
  key_matched prevData (<[ i := e' ]> ocr) k = key_matched prevData ocr k.
Proof.
  intros Hi Hm. unfold key_matched.
  apply (existsb_insert _ _ _ e); [exact Hi | now rewrite Hm].
Qed.

Lemma map_alter {A B} (g : A -> B) (h : B -> B) (l : list A) (i : nat) (x x' : A) :
  l !! i = Some x -> g x' = h (g x) ->
  List.map g (<[ i := x' ]> l) = alter h i (List.map g l).
Proof.
  revert i. induction l as [|y l IH]; intros i Hi Hg; [discriminate|].
  destruct i as [|i]; cbn in Hi |- *.
  - injection Hi as ->. now rewrite Hg.
  - f_equal. now apply IH.
Qed.

(** X15.  Editing the consumption field of row [i] changes one cell of the
    export and nothing else: the current consumption of row [i] becomes the
    typed text, trimmed; which record each entry is matched to, and which
    prior records are listed as unmatched, stay as they were. *)
Theorem edit_consumption_export (prevData : list PrevRecord)
    (ocr ocr' : list OcrEntry) (i : nat) (value : jsstring) :
  oninput ocr (Some i) field_consumptionOCR value = Normal ocr' ->
  exportRows prevData ocr'
  = alter (with_current (trim value)) i (exportRows prevData ocr).
Proof.
  unfold oninput. destruct (ocr !! i) as [e|] eqn:E; [|discriminate].
  intros [= <-]. rewrite !exportRows_two_parts.
  assert (Hi : (i < length (List.map (capture_row prevData) ocr))%nat).
  { rewrite length_map. now apply lookup_lt_Some in E. }
  rewrite (alter_app_l _ _ _ _ Hi). f_equal.
  - apply (map_alter _ _ _ _ e); [exact E|].
    unfold capture_row, with_current. cbn [set_field meterOCR consumptionOCR].
    now destruct (findPrevByOCR prevData (meterOCR e)).
  - f_equal. apply filter_ext. intros p. unfold unmatched. f_equal. f_equal.
    now apply (key_matched_insert _ _ _ e).
Qed.

(** The second of two captured rows gets the reading 41. *)
Lemma edit_consumption_export_witness :
  exportRows [record "Ana" "AJP1524392020" "10"]
    [capture 1 "Not Found" "7"; capture 2 "ajp1524392020" "41"]
  = alter (with_current (lit "41")) 1%nat
      (exportRows [record "Ana" "AJP1524392020" "10"]
         [capture 1 "Not Found" "7"; capture 2 "ajp1524392020" "4l"]).
Proof.
  exact (edit_consumption_export [record "Ana" "AJP1524392020" "10"]
           [capture 1 "Not Found" "7"; capture 2 "ajp1524392020" "4l"]
           [capture 1 "Not Found" "7"; capture 2 "ajp1524392020" "41"]
           1%nat (lit " 41 ") eq_refl).
Defined.

(** X16.  A manual correction works: when the meter field of row [i] is
    edited to the identifier of a loaded record, as the sheet shows it, the
    row is matched to a record with the same canonical identifier (provided
    that identifier is not empty); the other rows are as before. *)
Theorem edit_meter_rematches (json : list object) (ocr ocr' : list OcrEntry)
    (i : nat) (r : PrevRecord) :
  In r (load json) -> CleanMeter r <> [] ->
  oninput ocr (Some i) field_meterOCR (Meter r) = Normal ocr' ->
  (exists e' r',
      ocr' !! i = Some e'
      /\ findPrevByOCR (load json) (meterOCR e') = Some r'
      /\ CleanMeter r' = CleanMeter r)
  /\ length ocr' = length ocr
  /\ forall j, j <> i -> ocr' !! j = ocr !! j.
Proof.
  intros Hin Hne. unfold oninput.
  destruct (ocr !! i) as [e|] eqn:E; [|discriminate].
  intros [= <-].
  destruct (load_well_loaded json r Hin) as [Hc [_ [_ [Ht _]]]].
  split; [|split].
  - eexists. rewrite list_lookup_insert_eq by now apply lookup_lt_Some in E.
    cbn [set_field meterOCR]. rewrite Ht.
    destruct (exact_stage_hit (load json) (Meter r) r) as [r' [Hf [_ Hr']]];
      [congruence | exact Hin | exact Hc |].
    exists r'. split; [reflexivity|]. split; [exact Hf | congruence].
  - apply length_insert.
  - intros j Hj. now apply list_lookup_insert_ne.
Qed.

Lemma edit_meter_rematches_witness :
  exists e' r',
    <[ 1%nat := set_field field_meterOCR (lit "ajp-1524") (capture 2 "xx" "9") ]>
      [capture 1 "Not Found" "7"; capture 2 "xx" "9"] !! 1%nat = Some e'
    /\ findPrevByOCR (load [ {[ lit "Meter No." := Str (lit " ajp-1524 ") ]} ])
                     (meterOCR e') = Some r'
    /\ CleanMeter r' = lit "AJP-1524".
Proof.
  destruct (edit_meter_rematches
              [ {[ lit "Meter No." := Str (lit " ajp-1524 ") ]} ]
              [capture 1 "Not Found" "7"; capture 2 "xx" "9"]
              (<[ 1%nat := set_field field_meterOCR (lit "ajp-1524") (capture 2 "xx" "9") ]>
                 [capture 1 "Not Found" "7"; capture 2 "xx" "9"])
              1%nat
              (prevRecord_of_row {[ lit "Meter No." := Str (lit " ajp-1524 ") ]})
              (or_introl eq_refl))
    as [[e' [r' [He [Hf Hr]]]] _].
  - vm_compute. discriminate.
  - vm_compute. reflexivity.
  - exists e', r'. split; [exact He|]. split; [exact Hf|].
    rewrite Hr. vm_compute. reflexivity.
Defined.

(** ** The table on screen *)

Lemma calcDiffAbs_normal (prev curr : jsstring) :
  exists d, calcDiffAbs prev curr = Normal d.
Proof.
  rewrite calcDiffAbs_parsed.
  destruct (deviation_result_cases (parsed prev) (parsed curr))
    as [[_ ->] | [_ [shown [_ ->]]]]; eauto.
Qed.

Lemma calcDiffAbs_empty_current (prev : jsstring) :
  calcDiffAbs prev [] = Normal {| text := dash; cls := diff_gray |}.
Proof.
  rewrite calcDiffAbs_parsed. change (parsed []) with S754_nan.
  unfold deviation_result. cbn [isFinite negb]. now rewrite orb_true_r.
Qed.

Lemma calcDiffAbs_placeholder_prior (curr : jsstring) :
  calcDiffAbs (lit "Not Found") curr = Normal {| text := dash; cls := diff_gray |}.
Proof.
  rewrite calcDiffAbs_parsed.
  replace (parsed (lit "Not Found")) with S754_nan by (vm_compute; reflexivity).
  reflexivity.
Qed.

(** One row of the table. *)
Lemma renderRow_row (prevData : list PrevRecord) (idx : nat) (r : OcrEntry) :
  exists row,
    renderRow prevData idx r = Normal row
    /\ shown_row row = capture_row prevData r
    /\ input_row row = idx
    /\ tr_id row = id r
    /\ input_meterOCR row = meterOCR r
    /\ diff_of prevData r = Normal (td_diff row).
Proof.
  unfold renderRow, diff_of, capture_row, shown_row. cbv zeta.
  destruct (findPrevByOCR prevData (meterOCR r)) as [p|].
  - destruct (str_truthy (consumptionOCR r)) eqn:Hc; cbn [andb].
    + destruct (str_eqb (Consumption p) (lit "Not Found")) eqn:Hn; cbn [negb].
      * apply str_eqb_eq in Hn. rewrite Hn, calcDiffAbs_placeholder_prior.
        cbn [bind]. eexists. repeat split; reflexivity.
      * destruct (calcDiffAbs_normal (Consumption p) (consumptionOCR r)) as [d ->].
        cbn [bind]. eexists. repeat split; reflexivity.
    + apply str_truthy_empty in Hc. rewrite Hc, calcDiffAbs_empty_current.
      cbn [bind]. eexists. repeat split; reflexivity.
  - cbn [bind]. eexists. repeat split; reflexivity.
Qed.

Lemma renderFrom_rows (prevData : list PrevRecord) (ocr : list OcrEntry) :
  forall idx,
  exists rows,
    renderFrom prevData idx ocr = Normal rows
    /\ List.map shown_row rows = List.map (capture_row prevData) ocr
    /\ List.map input_row rows = seq idx (length ocr)
    /\ List.map tr_id rows = List.map id ocr
    /\ List.map input_meterOCR rows = List.map meterOCR ocr
    /\ List.map (diff_of prevData) ocr
       = List.map (fun row => Normal (td_diff row)) rows.
Proof.
  induction ocr as [|r ocr IH]; intros idx.
  - exists []. repeat split; reflexivity.
  - destruct (renderRow_row prevData idx r) as [row [Hr [H1 [H2 [H3 [H4 H5]]]]]].
    destruct (IH (S idx)) as [rows [Hrs [G1 [G2 [G3 [G4 G5]]]]]].
    exists (row :: rows). cbn [renderFrom]. rewrite Hr. cbn [bind].
    rewrite Hrs. cbn [bind List.map length seq].
    rewrite H1, H2, H3, H4, H5, G1, G2, G3, G4, G5. repeat split; reflexivity.
Qed.

(** X17.  Rendering never throws and shows one row per entry, in ledger
    order, with the index of the entry on its two inputs and the id of the
    entry on the row.  What the table shows is what the export writes: name,
    identifier, prior consumption and current consumption of the rows on
    screen are the first rows of the export. *)
Theorem renderResults_rows (prevData : list PrevRecord) (ocr : list OcrEntry) :
  exists rows,
    renderResults prevData ocr = Normal rows
    /\ List.map shown_row rows = take (length ocr) (exportRows prevData ocr)
    /\ List.map input_row rows = seq 0 (length ocr)
    /\ List.map tr_id rows = List.map id ocr
    /\ List.map input_meterOCR rows = List.map meterOCR ocr.
Proof.
  destruct (renderFrom_rows prevData ocr 0%nat)
    as [rows [Hrs [G1 [G2 [G3 [G4 _]]]]]].
  exists rows. split; [exact Hrs|]. split; [|auto].
  rewrite exportRows_two_parts, G1.
  rewrite <- (length_map (capture_row prevData) ocr) at 1.
  now rewrite take_app_length.
Qed.

(** X18.  The guard in front of the calculator in [renderResults] changes
    nothing: the difference cell of a matched row is what the calculator
    returns on the record's consumption and the entry's consumption field
    (a gray dash when that field is empty or the record's consumption is
    the text ["Not Found"], as the calculator itself would give), and the
    cell of an unmatched row is the gray dash. *)
Theorem renderResults_diff_cells (prevData : list PrevRecord) (ocr : list OcrEntry) :
  exists rows,
    renderResults prevData ocr = Normal rows
    /\ List.map (diff_of prevData) ocr
       = List.map (fun row => Normal (td_diff row)) rows.
Proof.
  destruct (renderFrom_rows prevData ocr 0%nat)
    as [rows [Hrs [_ [_ [_ [_ G5]]]]]].
  exists rows. auto.
Qed.

(** ** Failed recognition *)

Lemma placeholder_match (prevData : list PrevRecord) :
  findPrevByOCR prevData (lit "Not Found") = exact_match prevData (lit "NOTFOUND").
Proof.
  rewrite findPrevByOCR_stages. cbv zeta.
  replace (cleanMeter (lit "Not Found")) with (lit "NOTFOUND")
    by (vm_compute; reflexivity).
  cbn [str_truthy lit List.map list_ascii_of_string].
  now destruct (exact_match prevData _).
Qed.

(** X19.  When recognition fails or returns no text, the image still gets
    an entry, with the placeholder ["Not Found"] in both fields.  The
    placeholder goes through the matcher like any text: it is matched to a
    record exactly when some record of the store has the canonical
    identifier ["NOTFOUND"]; otherwise the entry is exported with the
    placeholder in all four columns. *)
Theorem failed_recognition (st : State) (dataURL : jsstring) (data : option jsstring) :
  ocr_text data = [] ->
  ocrResults (processImageFile st dataURL data)
  = ocrResults st
    ++ [ {| id := nextId st; preview := dataURL; rawText := [];
            meterOCR := lit "Not Found"; consumptionOCR := lit "Not Found" |} ]
  /\ (forall prevData,
        findPrevByOCR prevData (lit "Not Found")
        = exact_match prevData (lit "NOTFOUND"))
  /\ (forall prevData,
        exact_match prevData (lit "NOTFOUND") = None ->
        capture_row prevData
          {| id := nextId st; preview := dataURL; rawText := [];
             meterOCR := lit "Not Found"; consumptionOCR := lit "Not Found" |}
        = {| col_Name := not_found; col_MeterNo := not_found;
             col_PrevConsumption := not_found;
             col_CurrentConsumption := not_found |}).
Proof.
  intros Ht. split; [|split].
  - unfold processImageFile, extractMeterFromTextBlocks,
      extractConsumptionFromTextBlocks. cbv zeta. cbn [ocrResults].
    rewrite Ht. reflexivity.
  - apply placeholder_match.
  - intros prevData Hnone. unfold capture_row. cbn [meterOCR consumptionOCR].
    now rewrite placeholder_match, Hnone.
Qed.

(** Recognition returned [null]. *)
Lemma failed_recognition_witness :
  ocrResults (processImageFile initial (lit "data:,") None)
  = [ {| id := 1; preview := lit "data:,"; rawText := [];
         meterOCR := lit "Not Found"; consumptionOCR := lit "Not Found" |} ].
Proof.
  apply (proj1 (failed_recognition initial (lit "data:,") None eq_refl)).
Defined.

(** ** The store in every reachable state *)

Lemma step_store_well_loaded (st : State) (ev : event) :
  Forall well_loaded (prevData st) -> Forall well_loaded (prevData (step st ev)).
Proof.
  intros H. destruct ev as [json | url data | | row f v]; cbn [step]; try exact H.
  - cbn [loadSheet prevData]. apply List.Forall_forall. intros r.
    apply load_well_loaded.
  - destruct (oninput _ _ _ _); exact H.
Qed.

(** X20.  However the handlers are fired, every record of the store is as
    loading leaves it: its canonical identifier is the normalizer applied to
    its shown identifier, and its fields carry no white space at either
    end.  Capturing, editing and clearing never touch the store. *)
Theorem run_store_well_loaded (evs : list event) :
  Forall well_loaded (prevData (run evs)).
Proof.
  unfold run.
  assert (H : Forall well_loaded (prevData initial)) by constructor.
  revert H. generalize initial. induction evs as [|ev evs IH]; intros st H.
  - exact H.
  - cbn [fold_left]. apply IH. now apply step_store_well_loaded.
Qed.

(** ** Export and load *)

Lemma row_object_get (row : ExportRow) :
  get (row_object row) "Name" = Str (col_Name row)
  /\ get (row_object row) "Meter No." = Str (col_MeterNo row)
  /\ get (row_object row) "Prev Consumption" = Str (col_PrevConsumption row)
  /\ get (row_object row) "name" = Undefined
  /\ get (row_object row) "Account Name" = Undefined
  /\ get (row_object row) "Customer" = Undefined
  /\ get (row_object row) "Meter No" = Undefined
  /\ get (row_object row) "MeterNo" = Undefined
  /\ get (row_object row) "Meter" = Undefined
  /\ get (row_object row) "Consumption" = Undefined
  /\ get (row_object row) "Consumption Qty" = Undefined
  /\ get (row_object row) "Qty" = Undefined
  /\ get (row_object row) "Prev" = Undefined.
Proof.
  unfold get, row_object.
  repeat split;
    repeat (rewrite lookup_insert_ne by (vm_compute; discriminate));
    rewrite ?lookup_insert_eq, ?lookup_empty; reflexivity.
Qed.

(** X21.  Export and load fit together: the row object the export builds
    for a prior record that is as loading leaves it, read back by the load
    step, gives that record again (the current consumption column is not
    read). *)
Theorem exported_row_reloads (p : PrevRecord) (current : jsstring) :
  well_loaded p ->
  prevRecord_of_row (row_object (with_current current (prior_row p))) = p.
Proof.
  intros [Hc [_ [Hn [Hm Hs]]]].
  destruct (row_object_get (with_current current (prior_row p)))
    as [G1 [G2 [G3 [G4 [G5 [G6 [G7 [G8 [G9 [G10 [G11 [G12 G13]]]]]]]]]]]].
  cbn [with_current prior_row col_Name col_MeterNo col_PrevConsumption] in *.
  unfold prevRecord_of_row.
  rewrite G1, G2, G3, G4, G5, G6, G7, G8, G9, G10, G11, G12, G13.
  assert (N : forall s : jsstring,
             (Str s ||| Undefined ||| Undefined ||| Undefined ||| lit "") = Str s)
    by (intros [|c s]; reflexivity).
  assert (M : forall s : jsstring,
             (Str s ||| Undefined ||| Undefined ||| Undefined
              ||| Undefined ||| lit "") = Str s)
    by (intros [|c s]; reflexivity).
  assert (C : forall s : jsstring,
             (Undefined ||| Undefined ||| Undefined ||| Str s
              ||| Undefined ||| lit "") = Str s)
    by (intros [|c s]; reflexivity).
  rewrite N, M, C. cbn [String_]. rewrite Hn, Hm, Hs, <- Hc.
  now destruct p.
Qed.

Lemma exported_row_reloads_witness :
  prevRecord_of_row
    (row_object (with_current (lit "12") (prior_row (record "Ana" "AJP-1524" "10"))))
  = record "Ana" "AJP-1524" "10".
Proof.
  apply exported_row_reloads. repeat split; vm_compute; try reflexivity.
  repeat constructor.
Defined.
